(** * EasyOpenGL: the vertex-array wrapper ([GLA/vertexArray.h] and its
    implementation file)

    A shallow embedding of [gla::toGLenum], [gla::validateTypeInterpretation],
    [gla::typeToBytes], [gla::VertexArray::setAttributes] and the move
    operations of [gla::VertexArray], followed by the properties of the
    natural-language specification that concern them.

    Conventions of the embedding:
    - C++ [int], [unsigned int] and [size_t] are [Z]; every implicit
      conversion the compiler inserts is written out ([to_unsigned],
      [to_size_t]) and [int] arithmetic is reduced with [to_int]
      (two's-complement wrap-around, the behaviour of the usual targets);
    - an [enum class] value is its underlying integer, so that a value
      outside the enumeration (obtained by a cast) can be expressed;
    - a thrown exception is the left injection of [result]; the object and
      the sequence of native calls issued so far survive a throw, as the
      mutations of a C++ object do;
    - the native driver is a recorder: each call of the graphics API is
      appended to a log, in program order. *)

From Stdlib Require Import ZArith Lia.
From stdpp Require Import base numbers list strings pretty gmap.

Local Open Scope Z_scope.

(** ** Machine integers *)

Definition INT_MAX : Z := 2 ^ 31 - 1.
Definition INT_MIN : Z := - 2 ^ 31.

(** A value representable as a C++ [int]. *)
Definition is_int (x : Z) : Prop := INT_MIN ≤ x ≤ INT_MAX.

(** Result of an [int] operation, reduced to 32 bits in two's complement. *)
Definition to_int (x : Z) : Z := (x + 2 ^ 31) `mod` 2 ^ 32 - 2 ^ 31.

(** Conversion of an [int] to [unsigned int] (usual arithmetic conversions). *)
Definition to_unsigned (x : Z) : Z := x `mod` 2 ^ 32.

(** Conversion of an [int] to [size_t] (64 bits). *)
Definition to_size_t (x : Z) : Z := x `mod` 2 ^ 64.

(** ** Enumerations *)

Module VertexAttribType.

Inductive t : Set :=
  | Byte | UnsignedByte | Short | UnsignedShort | Int | UnsignedInt
  | HalfFloat | Float | Double | Fixed.

(** The enumerators take the values 0, 1, ... in declaration order. *)
Definition to_Z (x : t) : Z :=
  match x with
  | Byte => 0 | UnsignedByte => 1 | Short => 2 | UnsignedShort => 3
  | Int => 4 | UnsignedInt => 5 | HalfFloat => 6 | Float => 7
  | Double => 8 | Fixed => 9
  end.

(** The enumerator a stored value denotes, if any: what a [switch] over
    the enumerators selects. *)
Definition of_Z (z : Z) : option t :=
  match z with
  | 0 => Some Byte | 1 => Some UnsignedByte | 2 => Some Short
  | 3 => Some UnsignedShort | 4 => Some Int | 5 => Some UnsignedInt
  | 6 => Some HalfFloat | 7 => Some Float | 8 => Some Double
  | 9 => Some Fixed
  | _ => None
  end.

Definition all : list t :=
  [Byte; UnsignedByte; Short; UnsignedShort; Int; UnsignedInt;
   HalfFloat; Float; Double; Fixed].

End VertexAttribType.

Module VertexAttribInterp.

Inductive t : Set := Float | Integer.

Definition to_Z (x : t) : Z := match x with Float => 0 | Integer => 1 end.

End VertexAttribInterp.

(** ** Exceptions *)

Inductive exception : Set :=
  | invalid_argument (what : string)
  | runtime_error (what : string).

(** A computation that returns or throws. *)
Definition result (A : Type) : Type := (exception + A)%type.

Definition throw {A : Type} (e : exception) : result A := inl e.

#[global] Instance result_ret : MRet result := λ A x, inr x.
#[global] Instance result_bind : MBind result := λ A B f m,
  match m with inl e => inl e | inr x => f x end.

(** ** Native constants ([GL/glew.h]) *)

Definition GL_BYTE : Z := 0x1400.
Definition GL_UNSIGNED_BYTE : Z := 0x1401.
Definition GL_SHORT : Z := 0x1402.
Definition GL_UNSIGNED_SHORT : Z := 0x1403.
Definition GL_INT : Z := 0x1404.
Definition GL_UNSIGNED_INT : Z := 0x1405.
Definition GL_FLOAT : Z := 0x1406.
Definition GL_DOUBLE : Z := 0x140A.
Definition GL_HALF_FLOAT : Z := 0x140B.
Definition GL_FIXED : Z := 0x140C.

(** ** Type/size/enum translation *)

Definition toGLenum (type : Z) : result Z :=
  match VertexAttribType.of_Z type with
  | Some VertexAttribType.Byte => mret GL_BYTE
  | Some VertexAttribType.UnsignedByte => mret GL_UNSIGNED_BYTE
  | Some VertexAttribType.Short => mret GL_SHORT
  | Some VertexAttribType.UnsignedShort => mret GL_UNSIGNED_SHORT
  | Some VertexAttribType.Int => mret GL_INT
  | Some VertexAttribType.UnsignedInt => mret GL_UNSIGNED_INT
  | Some VertexAttribType.HalfFloat => mret GL_HALF_FLOAT
  | Some VertexAttribType.Float => mret GL_FLOAT
  | Some VertexAttribType.Double => mret GL_DOUBLE
  | Some VertexAttribType.Fixed => mret GL_FIXED
  | None => throw (invalid_argument "Given VertexAttribType is invalid!")
  end.

(** The [error] argument is passed by reference: the function returns its
    boolean together with the string the reference holds afterwards. *)
Definition validateTypeInterpretation (type interp : Z) (error : string)
  : bool * string :=
  if decide (interp = VertexAttribInterp.to_Z VertexAttribInterp.Integer) then
    match VertexAttribType.of_Z type with
    | Some VertexAttribType.HalfFloat =>
        (false, "Can't use type HalfFloat with Integer interpretation!"%string)
    | Some VertexAttribType.Float =>
        (false, "Can't use type Float with Integer interpretation!"%string)
    | Some VertexAttribType.Double =>
        (false, "Can't use type Double with Integer interpretation!"%string)
    | Some VertexAttribType.Fixed =>
        (false, "Can't use type Fixed with Integer interpretation!"%string)
    | _ => (true, error)
    end
  else (true, error).

Definition typeToBytes (type : Z) : result Z :=
  match VertexAttribType.of_Z type with
  | Some VertexAttribType.Byte => mret 1
  | Some VertexAttribType.UnsignedByte => mret 1
  | Some VertexAttribType.Short => mret 2
  | Some VertexAttribType.UnsignedShort => mret 2
  | Some VertexAttribType.Int => mret 4
  | Some VertexAttribType.UnsignedInt => mret 4
  | Some VertexAttribType.HalfFloat => mret 2
  | Some VertexAttribType.Float => mret 4
  | Some VertexAttribType.Double => mret 8
  | Some VertexAttribType.Fixed => mret 4
  | None => throw (invalid_argument "Given VertexAttribType is invalid!")
  end.

(** ** Data model *)

(** [struct VertexAttribute]: [index] is an [unsigned int], [numComponents]
    and [offset] are [int]s, [type] and [interp] hold enumeration values. *)
Record VertexAttribute : Set := {
  index : Z;
  numComponents : Z;
  type : Z;
  interp : Z;
  normalized : bool;
  offset : Z
}.

Inductive BufferType : Set := Array.

(** Modelled from the spec: the base class [gla::Buffer] of [GLA/buffer.h],
    which is not part of the sources at hand. The spec describes it as the
    holder of the native handle with move-only ownership, constructed with
    a [BufferType] tag; the handle 0 stands for the inert (moved-from)
    state. *)
Record Buffer : Set := {
  bufferType : BufferType;
  handle : Z
}.

(** [class VertexArray : public Buffer] with its private vector. *)
Record VertexArray : Set := {
  base : Buffer;
  _enabledVertexAttribs : list Z
}.

(** ** Native calls *)

Definition GL_MAX_VERTEX_ATTRIBS : Z := 0x8869.

Inductive GLcall : Set :=
  | glGetIntegerv (pname : Z)
  | Buffer_bind (id : Z)
  | glDisableVertexAttribArray (idx : Z)
  | glEnableVertexAttribArray (idx : Z)
  | glVertexAttribIPointer (idx size ty stride pointer : Z)
  | glVertexAttribPointer (idx size ty : Z) (norm : bool) (stride pointer : Z).

#[global] Instance GLcall_eq_dec : EqDecision GLcall.
Proof. solve_decision. Defined.

(** ** The monad of member functions

    A member function runs on the object ([this]) and the log of native
    calls; it returns or throws, and in both cases leaves a state behind. *)

Record state : Set := {
  this : VertexArray;
  calls : list GLcall
}.

Definition M (A : Type) : Type := state → result A * state.

#[global] Instance M_ret : MRet M := λ A x s, (inr x, s).
#[global] Instance M_bind : MBind M := λ A B f m s,
  match m s with
  | (inl e, s') => (inl e, s')
  | (inr x, s') => f x s'
  end.

Definition raise {A : Type} (e : exception) : M A := λ s, (inl e, s).

(** A pure computation that may throw, run inside a member function. *)
Definition lift {A : Type} (r : result A) : M A := λ s, (r, s).

(** Modelled from the spec: the macro [GL_CALL] of the absent
    [GLA/debug.h], which performs the wrapped native call (and, in a debug
    build, queries the driver's error state afterwards). The call reaches
    the driver; the driver is taken to report no error. *)
Definition GL_CALL (c : GLcall) : M unit :=
  λ s, (inr (), {| this := this s; calls := calls s ++ [c] |}).

(** Reads and writes of [_enabledVertexAttribs]. *)
Definition enabledVertexAttribs : M (list Z) :=
  λ s, (inr (_enabledVertexAttribs (this s)), s).

Definition clear : M unit :=
  λ s, (inr (), {| this := {| base := base (this s);
                               _enabledVertexAttribs := [] |};
                   calls := calls s |}).

Definition push_back (i : Z) : M unit :=
  λ s, (inr (), {| this := {| base := base (this s);
                               _enabledVertexAttribs :=
                                 _enabledVertexAttribs (this s) ++ [i] |};
                   calls := calls s |}).

(** Modelled from the spec: [Buffer::bind()] of the absent [GLA/buffer.h],
    which makes the object the active target of its binding point and has
    no other observable effect. *)
Definition bind : M unit :=
  λ s, GL_CALL (Buffer_bind (handle (base (this s)))) s.

(** A range-based [for] loop, or a counting loop over a list of positions:
    the body runs on each element in order and a throw leaves the loop. *)
Fixpoint for_each {F : Type → Type} `{!MBind F, !MRet F} {A : Type}
    (l : list A) (body : A → F unit) : F unit :=
  match l with
  | [] => mret ()
  | x :: l' => body x ;; for_each l' body
  end.

(** Modelled from the spec: the macro [DEBUG_ONLY] of the absent
    [GLA/debug.h]; its argument is compiled in a debug build only. *)
Definition DEBUG_ONLY (debug : bool) (code : M unit) : M unit :=
  if debug then code else mret ().

(** ** Layout application *)

Definition stride_exceeded_msg : string :=
  "Given VertexAttributes are bigger than the stride!".

Definition overlap_msg (i j : nat) : string :=
  "VertexAttributes " +:+ pretty i +:+ " and " +:+ pretty j +:+ " overlap!".

Definition too_many_msg (size : nat) (maxVertexAttribs : Z) : string :=
  "The current GPU does not support " +:+ pretty size +:+
  " vertex attributes. Max allowed are: " +:+ pretty maxVertexAttribs +:+
  ". At least 16 are guaranteed!".

(** The [size_t] value [end] computed for a descriptor whose scalar type
    occupies [bytes] bytes. *)
Definition attrib_end (a : VertexAttribute) (bytes : Z) : Z :=
  to_size_t (to_int (offset a + to_int (bytes * numComponents a))).

(** The inner loop over [j] of the debug block, for a fixed [i]. *)
Definition overlap_scan (attribs : list VertexAttribute) (i : nat)
    (ai : VertexAttribute) (end_ : Z) : result unit :=
  for_each (seq 0 (length attribs)) (λ j,
    if decide (i = j) then mret ()
    else match attribs !! j with
         | None => mret ()
         | Some aj =>
             if decide (offset ai ≤ offset aj ∧ to_size_t (offset aj) < end_)
             then throw (invalid_argument (overlap_msg i j))
             else mret ()
         end).

(** One iteration of the outer loop of the debug block. *)
Definition integrity_step (attribs : list VertexAttribute) (stride : Z)
    (i : nat) : result unit :=
  match attribs !! i with
  | None => mret ()
  | Some ai =>
      bytes ← typeToBytes (type ai);
      let end_ := attrib_end ai bytes in
      if decide (to_size_t stride < end_)
      then throw (invalid_argument stride_exceeded_msg)
      else overlap_scan attribs i ai end_
  end.

(** The block under [DEBUG_ONLY]. *)
Definition integrity_pass (attribs : list VertexAttribute) (stride : Z)
  : result unit :=
  for_each (seq 0 (length attribs)) (integrity_step attribs stride).

(** The native calls that describe one attribute. *)
Definition describe (attrib : VertexAttribute) (stride : Z) : M unit :=
  if decide (interp attrib = VertexAttribInterp.to_Z VertexAttribInterp.Integer)
  then
    ty ← lift (toGLenum (type attrib));
    GL_CALL (glVertexAttribIPointer (index attrib) (numComponents attrib) ty
               stride (offset attrib))
  else
    ty ← lift (toGLenum (type attrib));
    GL_CALL (glVertexAttribPointer (index attrib) (numComponents attrib) ty
               (normalized attrib) stride (offset attrib)).

(** The body of the final loop of [setAttributes]; [size] is
    [attribs.size()]. *)
Definition apply_attrib (maxVertexAttribs : Z) (size : nat) (stride : Z)
    (attrib : VertexAttribute) : M unit :=
  if decide (offset attrib < 0)
  then raise (invalid_argument "Offset may not be less than 0!")
  else if decide (to_unsigned maxVertexAttribs ≤ index attrib)
  then raise (invalid_argument
                ("The current GPU does not support indexes over " +:+
                 pretty size +:+ "!"))
  else if decide (numComponents attrib > 4 ∨ numComponents attrib ≤ 0)
  then raise (invalid_argument
                "numComponents of VertexAttribute may only be 1 to 4!")
  else
    GL_CALL (glEnableVertexAttribArray (index attrib));;
    push_back (index attrib);;
    let '(ok, error) :=
      validateTypeInterpretation (type attrib) (interp attrib) "" in
    if ok then describe attrib stride
    else raise (invalid_argument error).

(** [VertexArray::setAttributes]. [debug] tells whether the build defines
    the debug mode; [queried] is what the driver stores for
    [GL_MAX_VERTEX_ATTRIBS] ([None] when it stores nothing, which leaves
    the initial -1 in place). The call of [reserve] only changes the
    capacity of the vector and has no counterpart here. *)
Definition setAttributes (debug : bool) (queried : option Z)
    (attribs : list VertexAttribute) (stride : Z) : M unit :=
  if decide (stride ≤ 0)
  then raise (invalid_argument "stride must be greater than 0!")
  else
    GL_CALL (glGetIntegerv GL_MAX_VERTEX_ATTRIBS);;
    let maxVertexAttribs := default (-1) queried in
    if decide (maxVertexAttribs < 0)
    then raise (runtime_error "Could not query GL_MAX_VERTEX_ATTRIBS!")
    else if decide (to_size_t maxVertexAttribs < Z.of_nat (length attribs))
    then raise (runtime_error (too_many_msg (length attribs) maxVertexAttribs))
    else
      bind;;
      enabled ← enabledVertexAttribs;
      for_each enabled (λ i, GL_CALL (glDisableVertexAttribArray i));;
      clear;;
      DEBUG_ONLY debug (lift (integrity_pass attribs stride));;
      for_each attribs (apply_attrib maxVertexAttribs (length attribs) stride).

(** ** Construction and moves *)

(** [VertexArray() : Buffer(BufferType::Array) {}]; [id] is the handle the
    base class obtains. *)
Definition VertexArray_new (id : Z) : VertexArray :=
  {| base := {| bufferType := Array; handle := id |};
     _enabledVertexAttribs := [] |}.

(** Modelled from the spec: the move constructor of the absent
    [gla::Buffer]; the new object takes the handle and the source is left
    inert. Returns the new object and the source afterwards. *)
Definition Buffer_move (other : Buffer) : Buffer * Buffer :=
  ({| bufferType := bufferType other; handle := handle other |},
   {| bufferType := bufferType other; handle := 0 |}).

(** Modelled from the spec: the move assignment of the absent
    [gla::Buffer]; the destination takes the handle and the source is left
    inert. Returns the destination and the source afterwards. *)
Definition Buffer_move_assign (dst other : Buffer) : Buffer * Buffer :=
  ({| bufferType := bufferType other; handle := handle other |},
   {| bufferType := bufferType other; handle := 0 |}).

(** [VertexArray(VertexArray&& other) : Buffer(std::move(other)) {}]: the
    base is move-constructed from [other]; the vector of the new object is
    initialised by its default member initialiser [= {}], and the vector of
    [other] is not touched. Returns the new object and [other] afterwards. *)
Definition VertexArray_move (other : VertexArray) : VertexArray * VertexArray :=
  let '(b, ob) := Buffer_move (base other) in
  ({| base := b; _enabledVertexAttribs := [] |},
   {| base := ob; _enabledVertexAttribs := _enabledVertexAttribs other |}).

(** [operator=(VertexArray&& other)]: only [Buffer::operator=] runs; both
    vectors stay as they are. Returns [*this] and [other] afterwards. *)
Definition VertexArray_move_assign (dst other : VertexArray)
  : VertexArray * VertexArray :=
  let '(b, ob) := Buffer_move_assign (base dst) (base other) in
  ({| base := b; _enabledVertexAttribs := _enabledVertexAttribs dst |},
   {| base := ob; _enabledVertexAttribs := _enabledVertexAttribs other |}).

(** ** Specification-level vocabulary

    The notions the specification uses to describe layouts, written after
    its words; the theorems below relate them to the code. *)

(** A stored type value that belongs to the enumeration. *)
Definition in_enumeration (type : Z) : Prop := 0 ≤ type ≤ 9.

(** The documented byte width of each scalar type. *)
Definition scalarSize_doc (x : VertexAttribType.t) : Z :=
  match x with
  | VertexAttribType.Byte | VertexAttribType.UnsignedByte => 1
  | VertexAttribType.Short | VertexAttribType.UnsignedShort => 2
  | VertexAttribType.HalfFloat => 2
  | VertexAttribType.Int | VertexAttribType.UnsignedInt => 4
  | VertexAttribType.Float => 4
  | VertexAttribType.Fixed => 4
  | VertexAttribType.Double => 8
  end.

(** The native constant that corresponds to each scalar type. *)
Definition nativeEnum_doc (x : VertexAttribType.t) : Z :=
  match x with
  | VertexAttribType.Byte => GL_BYTE
  | VertexAttribType.UnsignedByte => GL_UNSIGNED_BYTE
  | VertexAttribType.Short => GL_SHORT
  | VertexAttribType.UnsignedShort => GL_UNSIGNED_SHORT
  | VertexAttribType.Int => GL_INT
  | VertexAttribType.UnsignedInt => GL_UNSIGNED_INT
  | VertexAttribType.HalfFloat => GL_HALF_FLOAT
  | VertexAttribType.Float => GL_FLOAT
  | VertexAttribType.Double => GL_DOUBLE
  | VertexAttribType.Fixed => GL_FIXED
  end.

(** The storage types that have no integer attribute-pointer analogue. *)
Definition float_like : list VertexAttribType.t :=
  [VertexAttribType.HalfFloat; VertexAttribType.Float;
   VertexAttribType.Double; VertexAttribType.Fixed].

Definition type_name (x : VertexAttribType.t) : string :=
  match x with
  | VertexAttribType.Byte => "Byte"
  | VertexAttribType.UnsignedByte => "UnsignedByte"
  | VertexAttribType.Short => "Short"
  | VertexAttribType.UnsignedShort => "UnsignedShort"
  | VertexAttribType.Int => "Int"
  | VertexAttribType.UnsignedInt => "UnsignedInt"
  | VertexAttribType.HalfFloat => "HalfFloat"
  | VertexAttribType.Float => "Float"
  | VertexAttribType.Double => "Double"
  | VertexAttribType.Fixed => "Fixed"
  end.

(** An incompatible (type, interp) pair: the Integer interpretation of a
    float-like storage type. *)
Definition incompatible (type interp : Z) : Prop :=
  interp = VertexAttribInterp.to_Z VertexAttribInterp.Integer ∧
  ∃ x, VertexAttribType.of_Z type = Some x ∧ x ∈ float_like.

(** Bytes one attribute occupies in a vertex record, and the end of its
    byte range [offset, offset + size). *)
Definition attrib_size (a : VertexAttribute) : Z :=
  match VertexAttribType.of_Z (type a) with
  | Some x => scalarSize_doc x * numComponents a
  | None => 0
  end.

Definition range_end (a : VertexAttribute) : Z := offset a + attrib_size a.

Definition exceeds_stride (stride : Z) (a : VertexAttribute) : Prop :=
  range_end a > stride.

(** Two byte ranges overlap when some byte belongs to both. *)
Definition overlap (a b : VertexAttribute) : Prop :=
  ∃ x, (offset a ≤ x < range_end a) ∧ (offset b ≤ x < range_end b).

(** The layout invariant of the data model. *)
Definition layout_invariant (attribs : list VertexAttribute) (stride : Z)
  : Prop :=
  (∀ a, a ∈ attribs → ¬ exceeds_stride stride a) ∧
  (∀ i j a b, i ≠ j → attribs !! i = Some a → attribs !! j = Some b →
              ¬ overlap a b).

(** A layout that breaks the invariant: some descriptor exceeds the stride
    or two descriptors at different positions overlap. *)
Definition layout_violation (attribs : list VertexAttribute) (stride : Z)
  : Prop :=
  (∃ a, a ∈ attribs ∧ exceeds_stride stride a) ∨
  (∃ i j a b, i ≠ j ∧ attribs !! i = Some a ∧ attribs !! j = Some b ∧
              overlap a b).

(** The per-descriptor preconditions of [setAttributes] for a platform
    limit [limit]. *)
Definition valid_descriptor (limit : Z) (a : VertexAttribute) : Prop :=
  0 ≤ offset a ∧ 0 ≤ index a < limit ∧ 1 ≤ numComponents a ≤ 4 ∧
  in_enumeration (type a) ∧ ¬ incompatible (type a) (interp a).

(** The three checks of a descriptor that come before its index is
    enabled. *)
Definition enabling_checks (limit : Z) (a : VertexAttribute) : Prop :=
  0 ≤ offset a ∧ index a < limit ∧ 1 ≤ numComponents a ≤ 4.

(** The native calls a descriptor that passes every check gives rise to. *)
Definition native_calls (stride : Z) (a : VertexAttribute) : list GLcall :=
  match VertexAttribType.of_Z (type a) with
  | Some x =>
      [glEnableVertexAttribArray (index a);
       if decide (interp a = VertexAttribInterp.to_Z VertexAttribInterp.Integer)
       then glVertexAttribIPointer (index a) (numComponents a)
              (nativeEnum_doc x) stride (offset a)
       else glVertexAttribPointer (index a) (numComponents a)
              (nativeEnum_doc x) (normalized a) stride (offset a)]
  | None => [glEnableVertexAttribArray (index a)]
  end.

(** The calls every run of [setAttributes] issues once its first three
    checks have passed, on an object with handle [id] whose enabled
    indices are [old]. *)
Definition preamble_calls (id : Z) (old : list Z) : list GLcall :=
  [glGetIntegerv GL_MAX_VERTEX_ATTRIBS; Buffer_bind id] ++
  (glDisableVertexAttribArray <$> old).

Definition is_enable (c : GLcall) : Prop :=
  ∃ i, c = glEnableVertexAttribArray i.

Definition is_disable (c : GLcall) : Prop :=
  ∃ i, c = glDisableVertexAttribArray i.

(** The state reached from [s] when the enabled indices become [l] and the
    calls [cs] are issued. *)
Definition evolve (s : state) (l : list Z) (cs : list GLcall) : state :=
  {| this := {| base := base (this s); _enabledVertexAttribs := l |};
     calls := calls s ++ cs |}.

(** The three checks that precede the enabling of a descriptor's index,
    as the code evaluates them. *)
Definition accepted (maxVertexAttribs : Z) (a : VertexAttribute) : Prop :=
  ¬ offset a < 0 ∧ ¬ to_unsigned maxVertexAttribs ≤ index a ∧
  ¬ (numComponents a > 4 ∨ numComponents a ≤ 0).

(** What the code requires after the enabling: a compatible pair and a
    type of the enumeration. *)
Definition describable (a : VertexAttribute) : Prop :=
  ¬ incompatible (type a) (interp a) ∧ in_enumeration (type a).

(** The state in which the debug block and the final loop start. *)
Definition reconfigured (s : state) : state :=
  evolve s []
    (preamble_calls (handle (base (this s))) (_enabledVertexAttribs (this s))).

(** The test of the inner loop. *)
Definition covers (ai : VertexAttribute) (end_ : Z) (aj : VertexAttribute)
  : Prop :=
  offset ai ≤ offset aj ∧ to_size_t (offset aj) < end_.

#[global] Instance accepted_dec maxv a : Decision (accepted maxv a).
Proof. unfold accepted. apply _. Defined.

(** The descriptors on which the arithmetic of the debug block is exact:
    a non-negative offset, a positive component count, a type of the
    enumeration and a range end that an [int] can hold. *)
Definition well_formed (a : VertexAttribute) : Prop :=
  0 ≤ offset a ∧ 1 ≤ numComponents a ∧ in_enumeration (type a) ∧
  range_end a ≤ INT_MAX.

(** ** Running a call *)

Definition initial (va : VertexArray) : state := {| this := va; calls := [] |}.

(** The outcome of a member function started on [va] with an empty log. *)
Definition run {A : Type} (m : M A) (va : VertexArray) : result A * state :=
  m (initial va).

Definition outcome {A : Type} (r : result A * state) : result A := r.1.
Definition object {A : Type} (r : result A * state) : VertexArray := this r.2.
Definition log {A : Type} (r : result A * state) : list GLcall := calls r.2.

(** ** Vocabulary of the further properties *)

(** A descriptor whose integer fields hold values of their C++ types. *)
Definition representable (a : VertexAttribute) : Prop :=
  0 ≤ index a < 2 ^ 32 ∧ is_int (numComponents a) ∧ is_int (offset a).

(** The indices a sequence of native calls enables, in order. *)
Definition enabled_by (cs : list GLcall) : list Z :=
  omap (λ c, match c with
             | glEnableVertexAttribArray i => Some i
             | _ => None
             end) cs.

(** The range of [a] contains the first byte of [b]. *)
Definition covers_start (a b : VertexAttribute) : Prop :=
  offset a ≤ offset b < range_end a.

(** The descriptor at position [i] exceeds the stride or contains the
    first byte of a descriptor at another position. *)
Definition offending (attribs : list VertexAttribute) (stride : Z) (i : nat)
  : Prop :=
  ∃ a, attribs !! i = Some a ∧
       (exceeds_stride stride a ∨
        ∃ j b, i ≠ j ∧ attribs !! j = Some b ∧ covers_start a b).

(** ** Sample descriptors *)

Definition attribute (index numComponents : Z) (type : VertexAttribType.t)
    (interp : VertexAttribInterp.t) (normalized : bool) (offset : Z)
  : VertexAttribute :=
  {| index := index; numComponents := numComponents;
     type := VertexAttribType.to_Z type;
     interp := VertexAttribInterp.to_Z interp;
     normalized := normalized; offset := offset |}.

(** Three floats at offset 0: bytes [0, 12). *)
Definition position3 : VertexAttribute :=
  attribute 0 3 VertexAttribType.Float VertexAttribInterp.Float false 0.

(** Four normalised unsigned bytes at offset 12: bytes [12, 16). *)
Definition colour4 : VertexAttribute :=
  attribute 1 4 VertexAttribType.UnsignedByte VertexAttribInterp.Float true 12.

(** One float at offset 8: bytes [8, 12), inside [position3]. *)
Definition inner1 : VertexAttribute :=
  attribute 1 1 VertexAttribType.Float VertexAttribInterp.Float false 8.

(** Four floats at offset 8: bytes [8, 24). *)
Definition wide4 : VertexAttribute :=
  attribute 1 4 VertexAttribType.Float VertexAttribInterp.Float false 8.

(** Four floats at offset 0: bytes [0, 16). *)
Definition vec4 : VertexAttribute :=
  attribute 0 4 VertexAttribType.Float VertexAttribInterp.Float false 0.

(** One float at offset 12, to be read as an integer. *)
Definition float_as_integer : VertexAttribute :=
  attribute 1 1 VertexAttribType.Float VertexAttribInterp.Integer false 12.

(** One float at offset 0, for index 1. *)
Definition scalar_at_0 : VertexAttribute :=
  attribute 1 1 VertexAttribType.Float VertexAttribInterp.Float false 0.

(** One float at offset -100: the signed sum -100 + 4 is negative. *)
Definition below_zero : VertexAttribute :=
  attribute 2 1 VertexAttribType.Float VertexAttribInterp.Float false (-100).

(** * Properties *)

(** ** Enumerations *)

Module VertexAttribTypeFacts.
Import VertexAttribType.

Lemma of_to_Z (x : t) : of_Z (to_Z x) = Some x.
Proof. by destruct x. Qed.

Lemma of_Z_Some (z : Z) (x : t) : of_Z z = Some x → z = to_Z x.
Proof.
  destruct z as [|p|p]; simpl; try discriminate.
  - by intros [= <-].
  - repeat (destruct p as [p|p|]; simpl; try discriminate); by intros [= <-].
Qed.

Lemma of_Z_None (z : Z) : of_Z z = None ↔ ¬ (0 ≤ z ≤ 9).
Proof.
  split.
  - intros Hz Hr. assert (Hc : z ∈ seqZ 0 10) by (apply elem_of_seqZ; lia).
    vm_compute in Hc. repeat (apply elem_of_cons in Hc as [->|Hc]; [done|]).
    by apply elem_of_nil in Hc.
  - intros Hr. destruct (of_Z z) as [x|] eqn:E; [|done].
    apply of_Z_Some in E. destruct x; simpl in E; lia.
Qed.

Lemma in_enumeration_of_Z (z : Z) : in_enumeration z ↔ is_Some (of_Z z).
Proof.
  unfold in_enumeration. destruct (of_Z z) as [x|] eqn:E.
  - split; [eauto|]. intros _. apply of_Z_Some in E. destruct x; simpl in E; lia.
  - apply of_Z_None in E. split; [done|]. by intros [? [=]].
Qed.

End VertexAttribTypeFacts.

Import VertexAttribTypeFacts.

(** ** The translation tables *)

Lemma typeToBytes_enum (x : VertexAttribType.t) :
  typeToBytes (VertexAttribType.to_Z x) = inr (scalarSize_doc x).
Proof. by destruct x. Qed.

Lemma toGLenum_enum (x : VertexAttribType.t) :
  toGLenum (VertexAttribType.to_Z x) = inr (nativeEnum_doc x).
Proof. by destruct x. Qed.

Lemma typeToBytes_of_Z (z : Z) (x : VertexAttribType.t) :
  VertexAttribType.of_Z z = Some x → typeToBytes z = inr (scalarSize_doc x).
Proof. intros ->%of_Z_Some. apply typeToBytes_enum. Qed.

Lemma toGLenum_of_Z (z : Z) (x : VertexAttribType.t) :
  VertexAttribType.of_Z z = Some x → toGLenum z = inr (nativeEnum_doc x).
Proof. intros ->%of_Z_Some. apply toGLenum_enum. Qed.

Lemma scalarSize_doc_bounds (x : VertexAttribType.t) : 1 ≤ scalarSize_doc x ≤ 8.
Proof. destruct x; simpl; lia. Qed.

(** C9. Every scalar type of the enumeration has its documented byte width
    (1 for the 8-bit integers, 2 for the 16-bit integers and the half
    float, 4 for the 32-bit integers, float and fixed, 8 for double) and
    its native constant; on a value outside the enumeration both
    [typeToBytes] and [toGLenum] throw [invalid_argument]. *)
Theorem translation_tables :
  (typeToBytes <$> (VertexAttribType.to_Z <$> VertexAttribType.all)
   = inr <$> [1; 1; 2; 2; 4; 4; 2; 4; 8; 4]) ∧
  (toGLenum <$> (VertexAttribType.to_Z <$> VertexAttribType.all)
   = inr <$> [GL_BYTE; GL_UNSIGNED_BYTE; GL_SHORT; GL_UNSIGNED_SHORT; GL_INT;
              GL_UNSIGNED_INT; GL_HALF_FLOAT; GL_FLOAT; GL_DOUBLE; GL_FIXED]) ∧
  (∀ x, typeToBytes (VertexAttribType.to_Z x) = inr (scalarSize_doc x) ∧
        toGLenum (VertexAttribType.to_Z x) = inr (nativeEnum_doc x)) ∧
  (∀ z, ¬ in_enumeration z →
        typeToBytes z = inl (invalid_argument "Given VertexAttribType is invalid!") ∧
        toGLenum z = inl (invalid_argument "Given VertexAttribType is invalid!")).
Proof.
  split_and!; [done|done|..].
  - intros x. split; [apply typeToBytes_enum|apply toGLenum_enum].
  - intros z Hz. unfold typeToBytes, toGLenum.
    destruct (VertexAttribType.of_Z z) as [x|] eqn:E; [|done].
    destruct Hz. apply in_enumeration_of_Z. eauto.
Qed.

Lemma translation_tables_witness :
  typeToBytes 10 = inl (invalid_argument "Given VertexAttribType is invalid!") ∧
  toGLenum (-1) = inl (invalid_argument "Given VertexAttribType is invalid!").
Proof.
  destruct translation_tables as (_ & _ & _ & H). split.
  - apply (H 10). unfold in_enumeration. lia.
  - apply (H (-1)). unfold in_enumeration. lia.
Defined.

(** ** The compatibility check *)

Lemma validate_incompatible (type interp : Z) (error : string) :
  (validateTypeInterpretation type interp error).1 = false ↔
  incompatible type interp.
Proof.
  unfold validateTypeInterpretation, incompatible, float_like.
  case_decide as Hi.
  - destruct (VertexAttribType.of_Z type) as [x|] eqn:E.
    + destruct x; simpl; split; try done;
        try (intros _; split; [done|]; eexists; split; [done|];
             rewrite !elem_of_cons; tauto);
        intros (_ & y & [= <-] & Hy);
        rewrite !elem_of_cons, elem_of_nil in Hy;
        destruct Hy as [?|[?|[?|[?|[]]]]]; discriminate.
    + simpl. split; [done|]. by intros (_ & y & [=] & _).
  - simpl. split; [done|]. by intros [? _].
Qed.

Lemma validate_reason (type interp : Z) (error : string) x :
  VertexAttribType.of_Z type = Some x →
  (validateTypeInterpretation type interp error).1 = false →
  (validateTypeInterpretation type interp error).2
  = "Can't use type " +:+ type_name x +:+ " with Integer interpretation!".
Proof.
  unfold validateTypeInterpretation. intros ->.
  case_decide; destruct x; simpl; done.
Qed.

(** C8. [validateTypeInterpretation] returns false exactly for the Integer
    interpretation of HalfFloat, Float, Double or Fixed, and then stores
    the reason in [error]; in every other case (Integer with another
    storage type, Float interpretation with any storage type) it returns
    true and leaves [error] as it was. *)
Theorem validateTypeInterpretation_spec (type interp : Z) (error : string) :
  let r := validateTypeInterpretation type interp error in
  (r.1 = false ↔
     interp = VertexAttribInterp.to_Z VertexAttribInterp.Integer ∧
     ∃ x, VertexAttribType.of_Z type = Some x ∧
          x ∈ [VertexAttribType.HalfFloat; VertexAttribType.Float;
               VertexAttribType.Double; VertexAttribType.Fixed]) ∧
  (∀ x, VertexAttribType.of_Z type = Some x → r.1 = false →
        r.2 = "Can't use type " +:+ type_name x +:+
              " with Integer interpretation!") ∧
  (∀ x, VertexAttribType.of_Z type = Some x → x ∉ float_like → r.1 = true) ∧
  (r.1 = true → r.2 = error) ∧
  (interp = VertexAttribInterp.to_Z VertexAttribInterp.Float → r.1 = true).
Proof.
  intros r. split_and!.
  - apply validate_incompatible.
  - intros x. apply validate_reason.
  - intros x Hx Hn. destruct r.1 eqn:E; [done|].
    apply validate_incompatible in E as (_ & y & Hy & Hin). congruence.
  - subst r. unfold validateTypeInterpretation.
    case_decide; [|done].
    destruct (VertexAttribType.of_Z type) as [[]|]; simpl; done.
  - subst r. unfold validateTypeInterpretation. intros ->.
    by rewrite decide_False.
Qed.

Lemma validateTypeInterpretation_spec_witness :
  (validateTypeInterpretation 7 1 "").1 = false ∧
  (validateTypeInterpretation 7 1 "").2
    = "Can't use type Float with Integer interpretation!"%string ∧
  (validateTypeInterpretation 4 1 "unset").2 = "unset"%string ∧
  (validateTypeInterpretation 8 0 "").1 = true.
Proof.
  split_and!.
  - apply (validateTypeInterpretation_spec 7 1 "").
    split; [done|]. exists VertexAttribType.Float. split; [done|].
    rewrite !elem_of_cons. tauto.
  - apply (validateTypeInterpretation_spec 7 1 "" ) with (x := VertexAttribType.Float);
      reflexivity.
  - apply (validateTypeInterpretation_spec 4 1 "unset"). reflexivity.
  - apply (validateTypeInterpretation_spec 8 0 ""). reflexivity.
Defined.

(** ** The monad *)

Ltac unfold_M :=
  unfold mbind, M_bind, mret, M_ret, raise, lift, GL_CALL, push_back, clear,
    enabledVertexAttribs, bind, DEBUG_ONLY; simpl.

Lemma evolve_id (s : state) :
  evolve s (_enabledVertexAttribs (this s)) [] = s.
Proof.
  destruct s as [[b l] cs]. unfold evolve. simpl. by rewrite app_nil_r.
Qed.

Lemma evolve_evolve (s : state) l cs l' cs' :
  evolve (evolve s l cs) l' cs' = evolve s l' (cs ++ cs').
Proof. unfold evolve. simpl. by rewrite app_assoc. Qed.

(** ** One descriptor *)

Lemma describe_enum stride a x s :
  VertexAttribType.of_Z (type a) = Some x →
  describe a stride s =
    (inr (), evolve s (_enabledVertexAttribs (this s))
               (drop 1 (native_calls stride a))).
Proof.
  intros E. unfold describe, native_calls. rewrite E.
  rewrite (toGLenum_of_Z _ _ E). destruct s as [[b l] cs].
  case_decide; unfold_M; done.
Qed.

Lemma describe_not_enum stride a s :
  VertexAttribType.of_Z (type a) = None →
  describe a stride s =
    (inl (invalid_argument "Given VertexAttribType is invalid!"), s).
Proof.
  intros E. unfold describe, toGLenum. rewrite E.
  case_decide; unfold_M; done.
Qed.

(** What the body of the final loop does, according to the checks the
    descriptor passes. *)
Lemma apply_attrib_rejected maxv size stride a s :
  ¬ accepted maxv a →
  ∃ msg, apply_attrib maxv size stride a s = (inl (invalid_argument msg), s).
Proof.
  intros Hn. unfold apply_attrib, accepted in *.
  repeat case_decide; unfold_M; eauto. tauto.
Qed.

Lemma apply_attrib_enabled_only maxv size stride a s :
  accepted maxv a → ¬ describable a →
  ∃ msg, apply_attrib maxv size stride a s =
    (inl (invalid_argument msg),
     evolve s (_enabledVertexAttribs (this s) ++ [index a])
       [glEnableVertexAttribArray (index a)]).
Proof.
  intros (H1 & H2 & H3) Hn. unfold apply_attrib.
  rewrite !decide_False by done. unfold_M.
  destruct (validateTypeInterpretation (type a) (interp a) "")
    as [ok error] eqn:E.
  destruct ok.
  - destruct (VertexAttribType.of_Z (type a)) as [x|] eqn:Ex.
    + destruct Hn. split; [|apply in_enumeration_of_Z; eauto].
      intros Hi%(validate_incompatible _ _ ""). by rewrite E in Hi.
    + rewrite describe_not_enum by done. eauto.
  - unfold_M. eauto.
Qed.

Lemma apply_attrib_described maxv size stride a s :
  accepted maxv a → describable a →
  apply_attrib maxv size stride a s =
    (inr (), evolve s (_enabledVertexAttribs (this s) ++ [index a])
               (native_calls stride a)).
Proof.
  intros (H1 & H2 & H3) [Hc [x Hx]%in_enumeration_of_Z]. unfold apply_attrib.
  rewrite !decide_False by done. unfold_M.
  destruct (validateTypeInterpretation (type a) (interp a) "")
    as [ok error] eqn:E.
  destruct ok.
  - rewrite (describe_enum _ _ x) by done. unfold evolve, native_calls. simpl.
    rewrite Hx. simpl. by rewrite <-app_assoc.
  - destruct Hc. apply (validate_incompatible _ _ ""). by rewrite E.
Qed.

Lemma describable_dec a : describable a ∨ ¬ describable a.
Proof.
  unfold describable.
  destruct (validateTypeInterpretation (type a) (interp a) "").1 eqn:E.
  - assert (¬ incompatible (type a) (interp a)) as Hc.
    { intros Hi%(validate_incompatible _ _ ""). congruence. }
    destruct (decide (in_enumeration (type a))); tauto.
  - apply validate_incompatible in E. tauto.
Qed.

(** ** The final loop *)

Section final_loop.
Variables (maxv : Z) (size : nat) (stride : Z).

Lemma loop_described attribs s :
  Forall (λ a, accepted maxv a ∧ describable a) attribs →
  for_each attribs (apply_attrib maxv size stride) s =
    (inr (), evolve s (_enabledVertexAttribs (this s) ++ (index <$> attribs))
               (attribs ≫= native_calls stride)).
Proof.
  intros H. revert s. induction H as [|a attribs [Ha Hd] _ IH]; intros s.
  - simpl. unfold_M. by rewrite app_nil_r, evolve_id.
  - simpl. unfold mbind at 1. unfold M_bind.
    rewrite apply_attrib_described by done. rewrite IH.
    rewrite evolve_evolve. simpl. by rewrite <-app_assoc.
Qed.

Lemma loop_stops pre a post s :
  Forall (λ a, accepted maxv a ∧ describable a) pre →
  for_each (pre ++ a :: post) (apply_attrib maxv size stride) s =
    match apply_attrib maxv size stride a
            (evolve s (_enabledVertexAttribs (this s) ++ (index <$> pre))
               (pre ≫= native_calls stride)) with
    | (inl e, s') => (inl e, s')
    | (inr _, s') => for_each post (apply_attrib maxv size stride) s'
    end.
Proof.
  intros H. revert s. induction H as [|b pre [Hb Hd] _ IH]; intros s.
  - simpl. unfold mbind at 1. unfold M_bind.
    by rewrite app_nil_r, evolve_id.
  - simpl. unfold mbind at 1. unfold M_bind.
    rewrite apply_attrib_described by done. rewrite IH.
    rewrite evolve_evolve. simpl. by rewrite <-app_assoc.
Qed.

Lemma loop_stops_at attribs k a s :
  attribs !! k = Some a →
  Forall (λ a, accepted maxv a ∧ describable a) (take k attribs) →
  for_each attribs (apply_attrib maxv size stride) s =
    match apply_attrib maxv size stride a
            (evolve s
               (_enabledVertexAttribs (this s) ++ (index <$> take k attribs))
               (take k attribs ≫= native_calls stride)) with
    | (inl e, s') => (inl e, s')
    | (inr _, s') =>
        for_each (drop (S k) attribs) (apply_attrib maxv size stride) s'
    end.
Proof.
  intros Hk Hpre. rewrite <-(take_drop_middle attribs k a Hk) at 1.
  by apply loop_stops.
Qed.

Lemma loop_returns_inv attribs s s' :
  for_each attribs (apply_attrib maxv size stride) s = (inr (), s') →
  Forall (λ a, accepted maxv a ∧ describable a) attribs.
Proof.
  revert s. induction attribs as [|a attribs IH]; intros s; [by constructor|].
  simpl. unfold mbind at 1. unfold M_bind.
  destruct (decide (accepted maxv a)) as [Ha|Ha].
  - destruct (describable_dec a) as [Hd|Hd].
    + rewrite apply_attrib_described by done. intros Hr.
      constructor; [done|]. by eapply IH.
    + destruct (apply_attrib_enabled_only maxv size stride a s) as [m ->];
        done.
  - destruct (apply_attrib_rejected maxv size stride a s) as [m ->]; done.
Qed.

End final_loop.

(** ** The first half of [setAttributes] *)

Lemma disable_loop (l : list Z) (s : state) :
  for_each l (λ i, GL_CALL (glDisableVertexAttribArray i)) s =
    (inr (), evolve s (_enabledVertexAttribs (this s))
               (glDisableVertexAttribArray <$> l)).
Proof.
  revert s. induction l as [|i l IH]; intros s; simpl.
  - unfold_M. by rewrite evolve_id.
  - unfold mbind at 1. unfold M_bind. unfold GL_CALL at 1. rewrite IH.
    destruct s as [[b en] cs]. unfold evolve. simpl. by rewrite <-app_assoc.
Qed.

(** Once the stride, the query and the count have passed their checks,
    the old indices are disabled and forgotten, and what remains is the
    debug block followed by the final loop. *)
Lemma setAttributes_checked debug maxv attribs stride s :
  0 < stride → 0 ≤ maxv → ¬ to_size_t maxv < Z.of_nat (length attribs) →
  setAttributes debug (Some maxv) attribs stride s =
    match (if debug then integrity_pass attribs stride else inr ()) with
    | inl e => (inl e, reconfigured s)
    | inr _ =>
        for_each attribs (apply_attrib maxv (length attribs) stride)
          (reconfigured s)
    end.
Proof.
  intros Hs Hm Hc. unfold setAttributes.
  rewrite decide_False by lia.
  unfold mbind at 1. unfold M_bind. unfold GL_CALL at 1. cbn beta iota.
  change (default (-1) (Some maxv)) with maxv.
  rewrite !decide_False by lia.
  unfold mbind at 1. unfold M_bind. unfold bind, GL_CALL at 1. cbn beta iota.
  unfold mbind at 1. unfold M_bind. unfold enabledVertexAttribs at 1.
  cbn beta iota.
  unfold mbind at 1. unfold M_bind. rewrite disable_loop.
  unfold mbind at 1. unfold M_bind. unfold clear at 1. cbn beta iota.
  unfold mbind at 1. unfold M_bind.
  match goal with
  | |- context [DEBUG_ONLY _ _ ?st] =>
      replace st with (reconfigured s)
  end.
  2:{ unfold reconfigured, preamble_calls, evolve. simpl.
      by rewrite <-!app_assoc. }
  destruct debug; unfold DEBUG_ONLY; unfold_M; [|done].
  by destruct (integrity_pass attribs stride) as [e|[]].
Qed.

Lemma to_size_t_small (x : Z) : 0 ≤ x < 2 ^ 64 → to_size_t x = x.
Proof. intros H. unfold to_size_t. by apply Z.mod_small. Qed.

Lemma to_unsigned_small (x : Z) : 0 ≤ x < 2 ^ 32 → to_unsigned x = x.
Proof. intros H. unfold to_unsigned. by apply Z.mod_small. Qed.

Lemma to_int_small (x : Z) : is_int x → to_int x = x.
Proof.
  unfold is_int, INT_MIN, INT_MAX, to_int. intros H.
  rewrite Z.mod_small; lia.
Qed.

Lemma count_within_limit (limit : Z) (attribs : list VertexAttribute) :
  0 ≤ limit ≤ INT_MAX → Z.of_nat (length attribs) ≤ limit →
  ¬ to_size_t limit < Z.of_nat (length attribs).
Proof.
  unfold INT_MAX. intros H0 Hl. rewrite to_size_t_small; lia.
Qed.

Lemma count_beyond_limit (limit : Z) (attribs : list VertexAttribute) :
  0 ≤ limit → limit < Z.of_nat (length attribs) →
  to_size_t limit < Z.of_nat (length attribs).
Proof.
  intros H0 Hl. unfold to_size_t.
  pose proof (Z.mod_le limit (2 ^ 64)). lia.
Qed.

(** ** Failures before any mutation *)

Lemma setAttributes_stride_rejected debug queried attribs stride s :
  stride ≤ 0 →
  setAttributes debug queried attribs stride s =
    (inl (invalid_argument "stride must be greater than 0!"), s).
Proof.
  intros H. unfold setAttributes. by rewrite decide_True.
Qed.

(** C4. With a stride that is not positive, [setAttributes] throws
    [invalid_argument] and nothing has changed: the object (and so its
    enabled indices) is the one before the call and no native call has
    been issued. *)
Theorem setAttributes_bad_stride (debug : bool) (queried : option Z)
    (attribs : list VertexAttribute) (stride : Z) (s : state) :
  stride ≤ 0 →
  setAttributes debug queried attribs stride s =
    (inl (invalid_argument "stride must be greater than 0!"), s).
Proof. apply setAttributes_stride_rejected. Qed.

(** C7. With a positive stride and a limit that the query delivered, a
    layout with more descriptors than the limit makes [setAttributes] throw
    [runtime_error] with a message that shows the count and the limit; the
    query is the only native call issued (no bind, no disable, no enable)
    and the object is unchanged. *)
Theorem setAttributes_too_many (debug : bool) (limit : Z)
    (attribs : list VertexAttribute) (stride : Z) (s : state) :
  0 < stride → 0 ≤ limit → limit < Z.of_nat (length attribs) →
  setAttributes debug (Some limit) attribs stride s =
    (inl (runtime_error
            ("The current GPU does not support " +:+ pretty (length attribs)
             +:+ " vertex attributes. Max allowed are: " +:+ pretty limit
             +:+ ". At least 16 are guaranteed!")),
     {| this := this s;
        calls := calls s ++ [glGetIntegerv GL_MAX_VERTEX_ATTRIBS] |}).
Proof.
  intros Hs H0 Hl. unfold setAttributes.
  rewrite decide_False by lia.
  unfold mbind at 1. unfold M_bind. unfold GL_CALL at 1. cbn beta iota.
  change (default (-1) (Some limit)) with limit.
  rewrite decide_False by lia.
  rewrite decide_True by by apply count_beyond_limit.
  done.
Qed.

Lemma setAttributes_bad_stride_witness :
  setAttributes true (Some 16) [] 0 (initial (VertexArray_new 1)) =
    (inl (invalid_argument "stride must be greater than 0!"),
     initial (VertexArray_new 1)).
Proof. apply setAttributes_bad_stride. lia. Defined.

Lemma setAttributes_too_many_witness :
  setAttributes false (Some 1) [position3; colour4] 16
    (initial (VertexArray_new 1)) =
    (inl (runtime_error
            "The current GPU does not support 2 vertex attributes. Max allowed are: 1. At least 16 are guaranteed!"),
     {| this := VertexArray_new 1;
        calls := [glGetIntegerv GL_MAX_VERTEX_ATTRIBS] |}).
Proof.
  apply (setAttributes_too_many false 1 [position3; colour4] 16
           (initial (VertexArray_new 1))); simpl; lia.
Defined.

(** ** The debug block *)

Section loops_that_throw.
Context {A : Type}.
Implicit Types (l : list A) (body : A → result ()).

Lemma for_each_returns l body :
  for_each l body = inr () ↔ ∀ x, x ∈ l → body x = inr ().
Proof.
  induction l as [|x l IH]; simpl.
  - split; [|done]. intros _ x Hx. by apply elem_of_nil in Hx.
  - unfold mbind, result_bind. destruct (body x) as [e|[]] eqn:E.
    + split; [done|]. intros H. rewrite <-E. apply H. by left.
    + rewrite IH. split.
      * intros H y [->|Hy]%elem_of_cons; auto.
      * intros H y Hy. apply H. by right.
Qed.

Lemma for_each_throws l body e :
  for_each l body = inl e ↔
  ∃ l1 x l2, l = l1 ++ x :: l2 ∧ (∀ y, y ∈ l1 → body y = inr ()) ∧
             body x = inl e.
Proof.
  induction l as [|x l IH]; simpl.
  - split; [done|]. by intros ([|??] & ? & ? & ? & _).
  - unfold mbind, result_bind. destruct (body x) as [e'|[]] eqn:E.
    + split.
      * intros [= ->]. exists [], x, l. split_and!; [done| |done].
        intros y Hy. by apply elem_of_nil in Hy.
      * intros ([|x' l1] & y & l2 & Hl & Hpre & Hy); simplify_eq/=.
        -- congruence.
        -- specialize (Hpre x' ltac:(by left)). congruence.
    + rewrite IH. split.
      * intros (l1 & y & l2 & -> & Hpre & Hy). exists (x :: l1), y, l2.
        split_and!; [done| |done].
        intros z [->|Hz]%elem_of_cons; auto.
      * intros ([|x' l1] & y & l2 & Hl & Hpre & Hy); simplify_eq/=.
        -- congruence.
        -- exists l1, y, l2. split_and!; [done| |done].
           intros z Hz. apply Hpre. by right.
Qed.

End loops_that_throw.

Lemma overlap_scan_returns attribs i ai end_ :
  overlap_scan attribs i ai end_ = inr () ↔
  ∀ j aj, i ≠ j → attribs !! j = Some aj → ¬ covers ai end_ aj.
Proof.
  unfold overlap_scan. rewrite for_each_returns. split.
  - intros H j aj Hij Hj Hc.
    specialize (H j). rewrite decide_False, Hj, decide_True in H by done.
    assert (j ∈ seq 0 (length attribs)) as Hin.
    { apply elem_of_seq. apply lookup_lt_Some in Hj. lia. }
    by specialize (H Hin).
  - intros H j _. case_decide as Hij; [done|].
    destruct (attribs !! j) as [aj|] eqn:Hj; [|done].
    case_decide as Hc; [|done]. by destruct (H j aj).
Qed.

Lemma overlap_scan_throws attribs i ai end_ e :
  overlap_scan attribs i ai end_ = inl e →
  ∃ j aj, i ≠ j ∧ attribs !! j = Some aj ∧ covers ai end_ aj ∧
          e = invalid_argument (overlap_msg i j).
Proof.
  unfold overlap_scan. rewrite for_each_throws.
  intros (l1 & j & l2 & _ & _ & Hj).
  case_decide as Hij; [done|].
  destruct (attribs !! j) as [aj|] eqn:Ej; [|done].
  case_decide as Hc; [|done]. injection Hj as <-. eauto 10.
Qed.

Lemma integrity_pass_returns attribs stride :
  integrity_pass attribs stride = inr () ↔
  ∀ i, (i < length attribs)%nat → integrity_step attribs stride i = inr ().
Proof.
  unfold integrity_pass. rewrite for_each_returns.
  split; intros H i Hi; apply H.
  - apply elem_of_seq. lia.
  - apply elem_of_seq in Hi. lia.
Qed.

Lemma integrity_pass_throws attribs stride e :
  integrity_pass attribs stride = inl e ↔
  ∃ i, (i < length attribs)%nat ∧
       (∀ k, (k < i)%nat → integrity_step attribs stride k = inr ()) ∧
       integrity_step attribs stride i = inl e.
Proof.
  unfold integrity_pass. rewrite for_each_throws. split.
  - intros (l1 & i & l2 & Hl & Hpre & Hi).
    assert (Hlen : seq 0 (length attribs) !! length l1 = Some i).
    { rewrite Hl. by rewrite list_lookup_middle. }
    apply lookup_seq in Hlen as [-> Hlt]. simpl in *.
    exists (length l1). split_and!; [done| |done].
    intros k Hk. apply Hpre.
    assert (Hk' : seq 0 (length attribs) !! k = Some k)
      by (apply lookup_seq; lia).
    rewrite Hl, lookup_app_l in Hk' by done.
    by eapply list_elem_of_lookup_2.
  - intros (i & Hi & Hpre & He).
    exists (seq 0 i), i, (seq (S i) (length attribs - S i)).
    split_and!; [|by intros y [_ Hy]%elem_of_seq; apply Hpre|done].
    replace (length attribs) with (i + S (length attribs - S i))%nat at 1
      by lia.
    by rewrite seq_app.
Qed.

(** *** The debug block on well-formed descriptors *)

Lemma range_end_enum a x :
  VertexAttribType.of_Z (type a) = Some x →
  range_end a = offset a + scalarSize_doc x * numComponents a.
Proof. intros E. unfold range_end, attrib_size. by rewrite E. Qed.

Lemma well_formed_size a : well_formed a → offset a < range_end a.
Proof.
  intros (Ho & Hn & [x Hx]%in_enumeration_of_Z & He).
  rewrite (range_end_enum _ _ Hx) in *.
  pose proof (scalarSize_doc_bounds x). nia.
Qed.

Lemma attrib_end_well_formed a x :
  VertexAttribType.of_Z (type a) = Some x → well_formed a →
  attrib_end a (scalarSize_doc x) = range_end a.
Proof.
  intros Hx (Ho & Hn & _ & He). rewrite (range_end_enum _ _ Hx) in *.
  pose proof (scalarSize_doc_bounds x). unfold attrib_end, INT_MAX in *.
  rewrite (to_int_small (_ * _)) by (unfold is_int, INT_MIN, INT_MAX; nia).
  rewrite to_int_small by (unfold is_int, INT_MIN, INT_MAX; nia).
  apply to_size_t_small. nia.
Qed.

Lemma integrity_step_well_formed attribs stride i ai :
  0 < stride ≤ INT_MAX → attribs !! i = Some ai → well_formed ai →
  integrity_step attribs stride i =
    if decide (stride < range_end ai)
    then inl (invalid_argument stride_exceeded_msg)
    else overlap_scan attribs i ai (range_end ai).
Proof.
  intros Hs Hi Hw. unfold integrity_step. rewrite Hi.
  pose proof Hw as (Ho & Hn & [x Hx]%in_enumeration_of_Z & He).
  rewrite (typeToBytes_of_Z _ _ Hx). unfold mbind, result_bind.
  simpl. rewrite (attrib_end_well_formed _ x) by done.
  rewrite to_size_t_small by (unfold INT_MAX in *; lia). done.
Qed.

Lemma covers_well_formed ai aj :
  well_formed aj →
  covers ai (range_end ai) aj ↔ offset ai ≤ offset aj < range_end ai.
Proof.
  intros Hw. pose proof (well_formed_size aj Hw).
  destruct Hw as (Ho & _ & _ & He). unfold covers.
  rewrite to_size_t_small by (unfold INT_MAX in *; lia). done.
Qed.

Lemma overlap_covers a b :
  well_formed a → well_formed b →
  overlap a b ↔
  offset a ≤ offset b < range_end a ∨ offset b ≤ offset a < range_end b.
Proof.
  intros Ha%well_formed_size Hb%well_formed_size. unfold overlap. split.
  - intros (x & Hxa & Hxb). lia.
  - intros [H|H]; [exists (offset b)|exists (offset a)]; lia.
Qed.

Lemma overlap_sym a b : overlap a b → overlap b a.
Proof. intros (x & ? & ?). by exists x. Qed.

Section debug_block.
Variables (attribs : list VertexAttribute) (stride : Z).
Hypothesis stride_ok : 0 < stride ≤ INT_MAX.
Hypothesis attribs_ok : Forall well_formed attribs.

Lemma lookup_well_formed i a : attribs !! i = Some a → well_formed a.
Proof. intros H. eapply Forall_lookup_1; eauto. Qed.

Lemma integrity_pass_invariant :
  integrity_pass attribs stride = inr () ↔ layout_invariant attribs stride.
Proof.
  rewrite integrity_pass_returns. unfold layout_invariant. split.
  - intros H. split.
    + intros a [i Hi]%list_elem_of_lookup_1 He.
      specialize (H i (lookup_lt_Some _ _ _ Hi)).
      rewrite (integrity_step_well_formed _ _ _ a) in H
        by eauto using lookup_well_formed.
      unfold exceeds_stride in He. by rewrite decide_True in H by lia.
    + assert (Hhalf : ∀ i j a b, i ≠ j → attribs !! i = Some a →
                attribs !! j = Some b → ¬ offset a ≤ offset b < range_end a).
      { intros i j a b Hij Hi Hj Hc.
        specialize (H i (lookup_lt_Some _ _ _ Hi)).
        rewrite (integrity_step_well_formed _ _ _ a) in H
          by eauto using lookup_well_formed.
        case_decide; [done|].
        rewrite overlap_scan_returns in H. apply (H j b); [done..|].
        apply covers_well_formed; eauto using lookup_well_formed. }
      intros i j a b Hij Hi Hj Ho.
      apply overlap_covers in Ho as [Ho|Ho]; eauto using lookup_well_formed.
      * by apply (Hhalf i j a b).
      * by apply (Hhalf j i b a).
  - intros [Hst Hov] i Hi.
    destruct (lookup_lt_is_Some_2 attribs i Hi) as [a Ha].
    rewrite (integrity_step_well_formed _ _ _ a)
      by eauto using lookup_well_formed.
    rewrite decide_False.
    2:{ pose proof (Hst a (list_elem_of_lookup_2 _ _ _ Ha)) as Hn.
        unfold exceeds_stride in Hn. lia. }
    apply overlap_scan_returns. intros j b Hij Hj Hc.
    apply covers_well_formed in Hc; [|by eauto using lookup_well_formed].
    apply (Hov i j a b); [done..|].
    apply overlap_covers; eauto using lookup_well_formed.
Qed.

Lemma integrity_pass_error e :
  integrity_pass attribs stride = inl e →
  (e = invalid_argument stride_exceeded_msg ∧
   ∃ a, a ∈ attribs ∧ exceeds_stride stride a) ∨
  (∃ i j ai aj, i ≠ j ∧ attribs !! i = Some ai ∧ attribs !! j = Some aj ∧
                overlap ai aj ∧ e = invalid_argument (overlap_msg i j)).
Proof.
  intros (i & Hi & _ & He)%integrity_pass_throws.
  destruct (lookup_lt_is_Some_2 attribs i Hi) as [a Ha].
  rewrite (integrity_step_well_formed _ _ _ a) in He
    by eauto using lookup_well_formed.
  case_decide as Hs.
  - left. injection He as <-. split; [done|]. exists a.
    split; [by eapply list_elem_of_lookup_2|]. unfold exceeds_stride. lia.
  - right. apply overlap_scan_throws in He as (j & b & Hij & Hj & Hc & ->).
    exists i, j, a, b. split_and!; try done.
    apply covers_well_formed in Hc; [|by eauto using lookup_well_formed].
    apply overlap_covers; eauto using lookup_well_formed.
Qed.

End debug_block.

Lemma layout_invariant_perm attribs attribs' stride :
  attribs ≡ₚ attribs' →
  layout_invariant attribs stride → layout_invariant attribs' stride.
Proof.
  intros Hp [Hst Hov]. split.
  - intros a Ha. apply Hst. by rewrite Hp.
  - symmetry in Hp. apply Permutation_inj in Hp as (_ & f & Hf & Hl).
    intros i j a b Hij Hi Hj. rewrite Hl in Hi, Hj.
    apply (Hov (f i) (f j)); [|done..]. intros Heq. by apply Hf in Heq.
Qed.

Lemma layout_violation_invariant attribs stride :
  layout_violation attribs stride → ¬ layout_invariant attribs stride.
Proof.
  intros [(a & Ha & He)|(i & j & a & b & Hij & Hi & Hj & Ho)] [Hst Hov].
  - by apply (Hst a).
  - by apply (Hov i j a b).
Qed.

Lemma setAttributes_debug_throws limit attribs stride s e :
  0 < stride → 0 ≤ limit ≤ INT_MAX → Z.of_nat (length attribs) ≤ limit →
  integrity_pass attribs stride = inl e →
  setAttributes true (Some limit) attribs stride s = (inl e, reconfigured s).
Proof.
  intros Hs Hl Hc He.
  rewrite setAttributes_checked by (try apply count_within_limit; lia).
  by rewrite He.
Qed.

(** C5 (as amended). In a debug build, on a layout whose descriptors have
    non-negative offsets, positive component counts, enumerated types and
    range ends an [int] can hold: a layout that keeps every descriptor
    within the stride and has no two overlapping ranges passes the debug
    block; a layout with a descriptor beyond the stride or with two
    overlapping ranges makes [setAttributes] throw [invalid_argument],
    either with the stride message (and then some descriptor does exceed
    the stride) or with a message naming two distinct positions whose
    ranges do overlap; and whether the block throws does not depend on the
    order of the descriptors. Which of the two messages a layout with both
    kinds of violation gets is a matter of the scan order (see the
    counterexample below). *)
Theorem debug_integrity (limit : Z) (attribs : list VertexAttribute)
    (stride : Z) (s : state) :
  0 < stride ≤ INT_MAX → 0 ≤ limit ≤ INT_MAX →
  Z.of_nat (length attribs) ≤ limit →
  Forall well_formed attribs →
  (layout_invariant attribs stride → integrity_pass attribs stride = inr ()) ∧
  (layout_violation attribs stride →
   ∃ msg, setAttributes true (Some limit) attribs stride s =
            (inl (invalid_argument msg), reconfigured s) ∧
          ((msg = stride_exceeded_msg ∧
            ∃ a, a ∈ attribs ∧ exceeds_stride stride a) ∨
           (∃ i j ai aj, i ≠ j ∧ attribs !! i = Some ai ∧
                         attribs !! j = Some aj ∧ overlap ai aj ∧
                         msg = "VertexAttributes " +:+ pretty i +:+ " and "
                               +:+ pretty j +:+ " overlap!"))) ∧
  (∀ attribs', attribs ≡ₚ attribs' →
     (integrity_pass attribs' stride = inr () ↔
      integrity_pass attribs stride = inr ())).
Proof.
  intros Hs Hl Hc Hw. split_and!.
  - by apply integrity_pass_invariant.
  - intros Hv%layout_violation_invariant.
    destruct (integrity_pass attribs stride) as [e|[]] eqn:E.
    + rewrite (setAttributes_debug_throws _ _ _ _ e) by (done || lia).
      apply integrity_pass_error in E as [[-> Ha]|(i & j & a & b & H)];
        [| |done..].
      * exists stride_exceeded_msg. split; [done|]. by left.
      * destruct H as (Hij & Hi & Hj & Ho & ->).
        exists (overlap_msg i j). split; [done|]. right.
        exists i, j, a, b. done.
    + destruct Hv. by apply integrity_pass_invariant.
  - intros attribs' Hp.
    assert (Forall well_formed attribs') as Hw' by by rewrite <-Hp.
    rewrite !integrity_pass_invariant by done.
    split; apply layout_invariant_perm; done.
Qed.

Lemma debug_integrity_witness :
  ∃ msg, setAttributes true (Some 16) [position3; inner1] 16
           (initial (VertexArray_new 1)) =
           (inl (invalid_argument msg),
            reconfigured (initial (VertexArray_new 1))) ∧
         ((msg = stride_exceeded_msg ∧
           ∃ a, a ∈ [position3; inner1] ∧ exceeds_stride 16 a) ∨
          (∃ i j ai aj, i ≠ j ∧ [position3; inner1] !! i = Some ai ∧
                        [position3; inner1] !! j = Some aj ∧ overlap ai aj ∧
                        msg = "VertexAttributes " +:+ pretty i +:+ " and "
                              +:+ pretty j +:+ " overlap!")).
Proof.
  refine (proj1 (proj2 (debug_integrity 16 [position3; inner1] 16
                          (initial (VertexArray_new 1)) _ _ _ _)) _).
  - unfold INT_MAX. lia.
  - unfold INT_MAX. lia.
  - simpl. lia.
  - repeat constructor; vm_compute; intros; discriminate.
  - right. exists 0%nat, 1%nat, position3, inner1.
    split_and!; [lia|reflexivity|reflexivity|].
    exists 8. vm_compute. repeat split; intros; discriminate.
Defined.

(** The two debug examples of the specification. *)
Example debug_example_exceeds_stride :
  outcome (run (setAttributes true (Some 16) [vec4] 12) (VertexArray_new 1))
  = inl (invalid_argument "Given VertexAttributes are bigger than the stride!").
Proof. reflexivity. Qed.

Example debug_example_overlap :
  outcome (run (setAttributes true (Some 16) [position3; inner1] 16)
             (VertexArray_new 1))
  = inl (invalid_argument "VertexAttributes 0 and 1 overlap!").
Proof. reflexivity. Qed.

(** C5 (counterexample). A layout with both kinds of violation gets one
    error, and which one depends on the scan order. The second descriptor
    of [position3; wide4] exceeds the stride 16 (it ends at byte 24), yet
    the error thrown is the overlap error for positions 0 and 1, not the
    stride error: the first descriptor is checked against all others
    before the end of the second one is looked at. Conversely the two
    descriptors of [vec4; inner1] overlap, yet at stride 12 the error
    thrown is the stride error, which names no position. *)
Lemma debug_integrity_counterexample :
  (wide4 ∈ [position3; wide4] ∧ exceeds_stride 16 wide4 ∧
   outcome (run (setAttributes true (Some 16) [position3; wide4] 16)
              (VertexArray_new 1))
   = inl (invalid_argument "VertexAttributes 0 and 1 overlap!")) ∧
  (overlap vec4 inner1 ∧
   outcome (run (setAttributes true (Some 16) [vec4; inner1] 12)
              (VertexArray_new 1))
   = inl (invalid_argument
            "Given VertexAttributes are bigger than the stride!")).
Proof.
  split; split_and!.
  - right. left.
  - by vm_compute.
  - reflexivity.
  - exists 8. unfold range_end, attrib_size. simpl. lia.
  - reflexivity.
Qed.

(** Outside the well-formed descriptors the debug block and the byte
    ranges part ways: with negative offsets an overlap goes unnoticed
    (the start of the other range is compared as a [size_t]), and a
    descriptor without components is reported as overlapping although its
    range is empty. The final loop rejects descriptors of both kinds. *)
Example debug_block_negative_offsets :
  let a := attribute 0 2 VertexAttribType.Float VertexAttribInterp.Float false (-4) in
  let b := attribute 1 1 VertexAttribType.Float VertexAttribInterp.Float false (-2) in
  overlap a b ∧ integrity_pass [a; b] 16 = inr ().
Proof.
  cbv zeta. split; [|reflexivity].
  exists 0. vm_compute. repeat split; intros; discriminate.
Qed.

Example debug_block_empty_range :
  let a := attribute 0 1 VertexAttribType.Float VertexAttribInterp.Float false 0 in
  let b := attribute 1 0 VertexAttribType.Float VertexAttribInterp.Float false 2 in
  ¬ overlap a b ∧
  integrity_pass [a; b] 16 = inl (invalid_argument "VertexAttributes 0 and 1 overlap!").
Proof.
  cbv zeta. split; [|reflexivity]. intros (x & _ & Hb).
  unfold range_end, attrib_size in Hb. simpl in Hb. lia.
Qed.

(** ** Successful calls *)

Lemma valid_descriptor_accepted limit a :
  0 ≤ limit ≤ INT_MAX → valid_descriptor limit a →
  accepted limit a ∧ describable a.
Proof.
  intros Hl (Ho & Hi & Hn & He & Hc). unfold accepted, describable.
  rewrite to_unsigned_small by (unfold INT_MAX in *; lia).
  split_and!; try done; lia.
Qed.

Lemma valid_descriptor_well_formed limit stride a :
  stride ≤ INT_MAX → valid_descriptor limit a → ¬ exceeds_stride stride a →
  well_formed a.
Proof.
  intros Hs (Ho & Hi & Hn & He & Hc) Hx. unfold exceeds_stride in Hx.
  split_and!; try done; lia.
Qed.

(** What a run that passes the first three checks and the debug block
    leaves behind when every descriptor passes the final loop. *)
Lemma setAttributes_described debug maxv attribs stride s :
  0 < stride → 0 ≤ maxv → ¬ to_size_t maxv < Z.of_nat (length attribs) →
  (debug = true → integrity_pass attribs stride = inr ()) →
  Forall (λ a, accepted maxv a ∧ describable a) attribs →
  setAttributes debug (Some maxv) attribs stride s =
    (inr (), evolve (reconfigured s) (index <$> attribs)
               (attribs ≫= native_calls stride)).
Proof.
  intros Hs Hm Hc Hd Ha. rewrite setAttributes_checked by done.
  assert ((if debug then integrity_pass attribs stride else inr ()) = inr ())
    as -> by (destruct debug; auto).
  by rewrite loop_described.
Qed.

(** C1 (as amended). A layout and stride that meet the preconditions of
    [setAttributes] (a positive stride, a limit delivered by the query and
    not below the number of descriptors, and for each descriptor a
    non-negative offset, an index below the limit, one to four components
    and a compatible pair of an enumerated type and an interpretation; in
    a debug build also the layout invariant) make [setAttributes] return
    without throwing, and the enabled indices of the object are then
    exactly the indices of the layout. *)
Theorem setAttributes_valid (debug : bool) (limit : Z)
    (attribs : list VertexAttribute) (stride : Z) (s : state) :
  0 < stride ≤ INT_MAX → 0 ≤ limit ≤ INT_MAX →
  Z.of_nat (length attribs) ≤ limit →
  Forall (valid_descriptor limit) attribs →
  (debug = true → layout_invariant attribs stride) →
  let r := setAttributes debug (Some limit) attribs stride s in
  r.1 = inr () ∧
  _enabledVertexAttribs (this r.2) = index <$> attribs ∧
  (∀ i, i ∈ _enabledVertexAttribs (this r.2) ↔ ∃ a, a ∈ attribs ∧ index a = i) ∧
  calls r.2 = calls s ++
              preamble_calls (handle (base (this s)))
                (_enabledVertexAttribs (this s)) ++
              (attribs ≫= native_calls stride).
Proof.
  intros Hs Hl Hc Hv Hd r. subst r.
  rewrite setAttributes_described.
  - simpl. split_and!; [done|done| |by rewrite <-app_assoc].
    intros i. rewrite list_elem_of_fmap.
    split; [intros (a & -> & Ha)|intros (a & Ha & <-)]; eauto.
  - lia.
  - lia.
  - by apply count_within_limit.
  - intros ->. specialize (Hd eq_refl).
    apply integrity_pass_invariant; [lia| |done].
    apply Forall_forall. intros a Ha.
    apply (valid_descriptor_well_formed limit stride); [lia| |by apply Hd].
    by eapply Forall_forall in Hv.
  - eapply Forall_impl; [done|]. intros a Ha.
    by apply valid_descriptor_accepted.
Qed.

Lemma sample_layout_invariant : layout_invariant [position3; colour4] 16.
Proof.
  split.
  - intros a Ha. rewrite !elem_of_cons, elem_of_nil in Ha.
    destruct Ha as [->|[->|[]]]; by vm_compute.
  - intros [|[|i]] [|[|j]] a b Hij Hi Hj; simplify_eq/=;
      intros (x & Ha & Hb); unfold range_end, attrib_size in *;
      simpl in *; lia.
Qed.

Lemma setAttributes_valid_witness :
  let r := setAttributes true (Some 16) [position3; colour4] 16
             (initial (VertexArray_new 1)) in
  r.1 = inr () ∧
  _enabledVertexAttribs (this r.2) = index <$> [position3; colour4] ∧
  (∀ i, i ∈ _enabledVertexAttribs (this r.2) ↔
        ∃ a, a ∈ [position3; colour4] ∧ index a = i) ∧
  calls r.2 = calls (initial (VertexArray_new 1)) ++
              preamble_calls 1 [] ++
              ([position3; colour4] ≫= native_calls 16).
Proof.
  apply (setAttributes_valid true 16 [position3; colour4] 16
           (initial (VertexArray_new 1))).
  - unfold INT_MAX. lia.
  - unfold INT_MAX. lia.
  - simpl. lia.
  - repeat constructor; unfold in_enumeration; simpl; try lia;
      intros (Hi & x & Hx & Hf); simpl in *; discriminate.
  - intros _. exact sample_layout_invariant.
Defined.

(** C1 (counterexample). The per-descriptor preconditions and a positive
    stride do not suffice. Two valid descriptors on index 0 are one more
    than a limit of 1 allows, and the count check throws in either build;
    the valid descriptors [position3; inner1] overlap, and in a debug build
    the debug block throws. *)
Lemma setAttributes_valid_counterexample :
  let second :=
    attribute 0 1 VertexAttribType.Float VertexAttribInterp.Float false 12 in
  (0 < 16 ∧ Forall (valid_descriptor 1) [position3; second] ∧
   outcome (run (setAttributes false (Some 1) [position3; second] 16)
              (VertexArray_new 1))
   = inl (runtime_error
            "The current GPU does not support 2 vertex attributes. Max allowed are: 1. At least 16 are guaranteed!")) ∧
  (0 < 16 ∧ Forall (valid_descriptor 16) [position3; inner1] ∧
   outcome (run (setAttributes true (Some 16) [position3; inner1] 16)
              (VertexArray_new 1))
   = inl (invalid_argument "VertexAttributes 0 and 1 overlap!")).
Proof.
  intros second. split; split_and!; try reflexivity;
    repeat constructor; unfold in_enumeration; simpl; try lia;
    intros (Hi & _); discriminate.
Qed.

(** ** Inversion of a successful call *)

Lemma setAttributes_query_failed debug queried attribs stride s :
  0 < stride → default (-1) queried < 0 →
  setAttributes debug queried attribs stride s =
    (inl (runtime_error "Could not query GL_MAX_VERTEX_ATTRIBS!"),
     {| this := this s;
        calls := calls s ++ [glGetIntegerv GL_MAX_VERTEX_ATTRIBS] |}).
Proof.
  intros Hs Hq. unfold setAttributes.
  rewrite decide_False by lia.
  unfold mbind at 1. unfold M_bind. unfold GL_CALL at 1. cbn beta iota.
  by rewrite decide_True.
Qed.

Lemma setAttributes_count_rejected debug maxv attribs stride s :
  0 < stride → 0 ≤ maxv → to_size_t maxv < Z.of_nat (length attribs) →
  setAttributes debug (Some maxv) attribs stride s =
    (inl (runtime_error (too_many_msg (length attribs) maxv)),
     {| this := this s;
        calls := calls s ++ [glGetIntegerv GL_MAX_VERTEX_ATTRIBS] |}).
Proof.
  intros Hs H0 Hl. unfold setAttributes.
  rewrite decide_False by lia.
  unfold mbind at 1. unfold M_bind. unfold GL_CALL at 1. cbn beta iota.
  change (default (-1) (Some maxv)) with maxv.
  rewrite decide_False by lia. by rewrite decide_True.
Qed.

Lemma setAttributes_returns_inv debug queried attribs stride s s' :
  setAttributes debug queried attribs stride s = (inr (), s') →
  s' = evolve (reconfigured s) (index <$> attribs)
         (attribs ≫= native_calls stride).
Proof.
  intros H.
  destruct (decide (stride ≤ 0)) as [Hs|Hs].
  { by rewrite setAttributes_stride_rejected in H. }
  destruct (decide (default (-1) queried < 0)) as [Hq|Hq].
  { by rewrite setAttributes_query_failed in H by lia. }
  destruct queried as [maxv|]; [|done]. simpl in Hq.
  destruct (decide (to_size_t maxv < Z.of_nat (length attribs))) as [Hc|Hc].
  { by rewrite setAttributes_count_rejected in H by lia. }
  pose proof H as H'.
  rewrite setAttributes_checked in H by lia.
  destruct (if debug then integrity_pass attribs stride else inr ())
    as [e|[]] eqn:Hd; [done|].
  apply loop_returns_inv in H.
  rewrite setAttributes_described in H'; try done; try lia.
  - congruence.
  - intros ->. done.
Qed.

Lemma native_calls_shape stride a c :
  c ∈ native_calls stride a →
  c = glEnableVertexAttribArray (index a) ∨
  (∃ ty, c = glVertexAttribIPointer (index a) (numComponents a) ty stride
               (offset a)) ∨
  (∃ ty, c = glVertexAttribPointer (index a) (numComponents a) ty
               (normalized a) stride (offset a)).
Proof.
  unfold native_calls.
  destruct (VertexAttribType.of_Z (type a)) as [x|];
    rewrite ?elem_of_cons, elem_of_nil; [|tauto].
  case_decide; intros [->|[->|[]]]; eauto.
Qed.

Lemma native_calls_never_disable stride attribs c :
  c ∈ attribs ≫= native_calls stride → ¬ is_disable c.
Proof.
  intros (a & Hc & _)%list_elem_of_bind [i ->].
  apply native_calls_shape in Hc as [Hc|[[ty Hc]|[ty Hc]]]; discriminate.
Qed.

Lemma preamble_calls_never_enable id old c :
  c ∈ preamble_calls id old → ¬ is_enable c.
Proof.
  unfold preamble_calls. rewrite elem_of_app, !elem_of_cons, elem_of_nil.
  intros [[->|[->|[]]]|(i & -> & _)%list_elem_of_fmap] [j Hj]; discriminate.
Qed.

(** In the calls of one run every disable comes before every enable. *)
Lemma disable_before_enable id old stride attribs (p q : nat) i j :
  let cs := preamble_calls id old ++ (attribs ≫= native_calls stride) in
  cs !! p = Some (glDisableVertexAttribArray i) →
  cs !! q = Some (glEnableVertexAttribArray j) →
  (p < q)%nat.
Proof.
  intros cs Hp Hq. subst cs.
  apply lookup_app_Some in Hp as [Hp|[_ Hp]].
  2:{ apply list_elem_of_lookup_2, native_calls_never_disable in Hp.
      destruct Hp. by eexists. }
  apply lookup_app_Some in Hq as [Hq|[Hq _]].
  { apply list_elem_of_lookup_2, preamble_calls_never_enable in Hq.
    destruct Hq. by eexists. }
  apply lookup_lt_Some in Hp. lia.
Qed.

(** ** Reconfiguration *)

(** C2. When two successive calls of [setAttributes] on the same object
    both return, the second call issues, after the limit query and the
    bind, one disable per index the first call enabled and only then the
    enables and pointer calls of the second layout (every disable precedes
    every enable); afterwards the enabled indices of the object are
    exactly the indices of the second layout. *)
Theorem setAttributes_twice (debug : bool) (queried1 queried2 : option Z)
    (layout1 layout2 : list VertexAttribute) (stride1 stride2 : Z)
    (s0 s1 s2 : state) :
  setAttributes debug queried1 layout1 stride1 s0 = (inr (), s1) →
  setAttributes debug queried2 layout2 stride2 s1 = (inr (), s2) →
  let second :=
    [glGetIntegerv GL_MAX_VERTEX_ATTRIBS;
     Buffer_bind (handle (base (this s1)))] ++
    (glDisableVertexAttribArray <$> (index <$> layout1)) ++
    (layout2 ≫= native_calls stride2) in
  _enabledVertexAttribs (this s1) = index <$> layout1 ∧
  calls s2 = calls s1 ++ second ∧
  (∀ (p q : nat) i j,
     second !! p = Some (glDisableVertexAttribArray i) →
     second !! q = Some (glEnableVertexAttribArray j) → (p < q)%nat) ∧
  _enabledVertexAttribs (this s2) = index <$> layout2 ∧
  (∀ i, i ∈ _enabledVertexAttribs (this s2) ↔
        ∃ a, a ∈ layout2 ∧ index a = i).
Proof.
  intros H1%setAttributes_returns_inv H2%setAttributes_returns_inv second.
  assert (He : _enabledVertexAttribs (this s1) = index <$> layout1)
    by by rewrite H1.
  split_and!.
  - done.
  - rewrite H2. unfold reconfigured, preamble_calls. simpl. rewrite He.
    subst second. by rewrite <-!app_assoc.
  - intros p q i j. subst second. rewrite app_assoc.
    apply (disable_before_enable _ (index <$> layout1)).
  - by rewrite H2.
  - intros i. rewrite H2. simpl. rewrite list_elem_of_fmap.
    split; [intros (a & -> & Ha)|intros (a & Ha & <-)]; eauto.
Qed.

Lemma setAttributes_twice_witness :
  let s0 := initial (VertexArray_new 1) in
  let s1 := (setAttributes true (Some 16) [position3; colour4] 16 s0).2 in
  let s2 := (setAttributes true (Some 16) [vec4] 16 s1).2 in
  _enabledVertexAttribs (this s1) = [0; 1] ∧
  calls s2 = calls s1 ++
             [glGetIntegerv GL_MAX_VERTEX_ATTRIBS; Buffer_bind 1;
              glDisableVertexAttribArray 0; glDisableVertexAttribArray 1;
              glEnableVertexAttribArray 0;
              glVertexAttribPointer 0 4 GL_FLOAT false 16 0] ∧
  _enabledVertexAttribs (this s2) = [0].
Proof.
  intros s0 s1 s2.
  destruct (setAttributes_twice true (Some 16) (Some 16)
              [position3; colour4] [vec4] 16 16 s0 s1 s2)
    as (H1 & H2 & _ & H3 & _); [reflexivity|reflexivity|].
  split_and!; [exact H1|exact H2|exact H3].
Defined.

(** ** Partial failure *)

Lemma accepted_enabling_checks limit a :
  0 ≤ limit ≤ INT_MAX → accepted limit a ↔ enabling_checks limit a.
Proof.
  intros Hl. unfold accepted, enabling_checks.
  rewrite to_unsigned_small by (unfold INT_MAX in *; lia). lia.
Qed.





(** ** Negative range ends in the debug block *)

Lemma to_int_range (x : Z) : is_int (to_int x).
Proof.
  unfold is_int, to_int, INT_MIN, INT_MAX.
  pose proof (Z.mod_pos_bound (x + 2 ^ 31) (2 ^ 32)). lia.
Qed.

Lemma to_int_add_to_int (a b : Z) : to_int (a + to_int b) = to_int (a + b).
Proof.
  unfold to_int. f_equal.
  replace (a + ((b + 2 ^ 31) `mod` 2 ^ 32 - 2 ^ 31) + 2 ^ 31)
    with (a + (b + 2 ^ 31) `mod` 2 ^ 32) by lia.
  rewrite Zplus_mod_idemp_r. f_equal. lia.
Qed.

Lemma attrib_end_negative a x :
  VertexAttribType.of_Z (type a) = Some x →
  INT_MIN ≤ range_end a < 0 →
  attrib_end a (scalarSize_doc x) = 2 ^ 64 + range_end a.
Proof.
  intros Hx Hr. rewrite (range_end_enum _ _ Hx) in *.
  unfold attrib_end. rewrite to_int_add_to_int.
  rewrite to_int_small by (unfold is_int, INT_MAX; lia).
  unfold to_size_t, INT_MIN in *.
  symmetry. apply (Z.mod_unique_pos _ _ (-1)); lia.
Qed.

Lemma integrity_step_negative_end attribs stride i a :
  0 < stride ≤ INT_MAX → attribs !! i = Some a →
  in_enumeration (type a) → INT_MIN ≤ range_end a < 0 →
  integrity_step attribs stride i = inl (invalid_argument stride_exceeded_msg).
Proof.
  intros Hs Hi [x Hx]%in_enumeration_of_Z Hr. unfold integrity_step.
  rewrite Hi, (typeToBytes_of_Z _ _ Hx). unfold mbind, result_bind. simpl.
  rewrite (attrib_end_negative _ x) by done.
  rewrite to_size_t_small by (unfold INT_MAX in *; lia).
  rewrite decide_True; [done|]. unfold INT_MAX, INT_MIN in *. lia.
Qed.

(** The errors the debug block can throw. *)
Lemma integrity_pass_error_kinds attribs stride e :
  integrity_pass attribs stride = inl e →
  e = invalid_argument stride_exceeded_msg ∨
  e = invalid_argument "Given VertexAttribType is invalid!" ∨
  ∃ i j, e = invalid_argument (overlap_msg i j).
Proof.
  intros (i & _ & _ & He)%integrity_pass_throws.
  unfold integrity_step in He.
  destruct (attribs !! i) as [a|]; [|done].
  destruct (VertexAttribType.of_Z (type a)) as [x|] eqn:Hx.
  - rewrite (typeToBytes_of_Z _ _ Hx) in He.
    unfold mbind, result_bind, throw in He. simpl in He.
    case_decide.
    + left. congruence.
    + apply overlap_scan_throws in He as (j & _ & _ & _ & _ & ->). eauto.
  - right. left. unfold typeToBytes in He. rewrite Hx in He.
    unfold mbind, result_bind, throw in He. congruence.
Qed.

(** C10 (as amended). In a debug build, once the stride, the query and the
    count have passed, a layout with a descriptor of an enumerated type
    whose signed sum [offset + size * numComponents] is negative makes
    [setAttributes] throw inside the debug block, which runs before the
    final loop: the error is never the negative-offset error of that loop,
    and it is the stride error whenever no earlier iteration of the debug
    block has thrown already (in particular when the descriptor comes
    first), because the sum is compared with the stride as a [size_t]. *)
Theorem negative_end_in_debug (limit : Z) (attribs : list VertexAttribute)
    (stride : Z) (s : state) (i : nat) (a : VertexAttribute) :
  0 < stride ≤ INT_MAX → 0 ≤ limit ≤ INT_MAX →
  Z.of_nat (length attribs) ≤ limit →
  attribs !! i = Some a → in_enumeration (type a) →
  INT_MIN ≤ range_end a < 0 →
  ∃ e, setAttributes true (Some limit) attribs stride s
       = (inl e, reconfigured s) ∧
       e ≠ invalid_argument "Offset may not be less than 0!" ∧
       ((∀ k, (k < i)%nat → integrity_step attribs stride k = inr ()) →
        e = invalid_argument
              "Given VertexAttributes are bigger than the stride!").
Proof.
  intros Hs Hl Hc Hi He Hr.
  pose proof (integrity_step_negative_end attribs stride i a Hs Hi He Hr)
    as Hstep.
  destruct (integrity_pass attribs stride) as [e|[]] eqn:Hp.
  - exists e. split_and!.
    + apply setAttributes_debug_throws; done || lia.
    + apply integrity_pass_error_kinds in Hp as [->|[->|(i' & j' & ->)]];
        discriminate.
    + intros Hbefore.
      apply integrity_pass_throws in Hp as (i' & Hi' & Hpre & Hthrow).
      destruct (Nat.lt_total i i') as [Hlt|[->|Hlt]].
      * rewrite (Hpre i Hlt) in Hstep. discriminate.
      * rewrite Hstep in Hthrow. injection Hthrow as <-. reflexivity.
      * rewrite (Hbefore i' Hlt) in Hthrow. discriminate.
  - rewrite integrity_pass_returns in Hp.
    rewrite (Hp i (lookup_lt_Some _ _ _ Hi)) in Hstep. discriminate.
Qed.

Lemma negative_end_in_debug_witness :
  ∃ e, setAttributes true (Some 16) [below_zero] 16
         (initial (VertexArray_new 1))
       = (inl e, reconfigured (initial (VertexArray_new 1))) ∧
       e ≠ invalid_argument "Offset may not be less than 0!" ∧
       e = invalid_argument "Given VertexAttributes are bigger than the stride!".
Proof.
  destruct (negative_end_in_debug 16 [below_zero] 16
              (initial (VertexArray_new 1)) 0 below_zero)
    as (e & H1 & H2 & H3).
  - unfold INT_MAX. lia.
  - unfold INT_MAX. lia.
  - simpl. lia.
  - reflexivity.
  - unfold in_enumeration. simpl. lia.
  - unfold INT_MIN, range_end, attrib_size. simpl. lia.
  - exists e. split_and!; [exact H1|exact H2|].
    apply H3. intros k Hk. lia.
Defined.

(** C10 (counterexample). The last descriptor of
    [position3; scalar_at_0; below_zero] has the negative signed sum
    -100 + 4, yet the error thrown is the overlap error for positions 0
    and 1, which the scan meets first, not the stride error. *)
Lemma negative_end_counterexample :
  [position3; scalar_at_0; below_zero] !! 2%nat = Some below_zero ∧
  offset below_zero + 4 * numComponents below_zero = -96 ∧
  outcome (run (setAttributes true (Some 16)
                  [position3; scalar_at_0; below_zero] 16)
             (VertexArray_new 1))
  = inl (invalid_argument "VertexAttributes 0 and 1 overlap!") ∧
  outcome (run (setAttributes true (Some 16)
                  [position3; scalar_at_0; below_zero] 16)
             (VertexArray_new 1))
  ≠ inl (invalid_argument "Given VertexAttributes are bigger than the stride!").
Proof.
  split_and!; [reflexivity|reflexivity|reflexivity|by vm_compute].
Qed.

(** ** Moves *)

(** What the two move operations do to any pair of objects: the handle
    travels with the base class, the vectors stay where they were. *)
Lemma VertexArray_move_fields (other : VertexArray) :
  handle (base (VertexArray_move other).1) = handle (base other) ∧
  handle (base (VertexArray_move other).2) = 0 ∧
  _enabledVertexAttribs (VertexArray_move other).1 = [] ∧
  _enabledVertexAttribs (VertexArray_move other).2
    = _enabledVertexAttribs other.
Proof. done. Qed.

Lemma VertexArray_move_assign_fields (dst other : VertexArray) :
  handle (base (VertexArray_move_assign dst other).1) = handle (base other) ∧
  handle (base (VertexArray_move_assign dst other).2) = 0 ∧
  _enabledVertexAttribs (VertexArray_move_assign dst other).1
    = _enabledVertexAttribs dst ∧
  _enabledVertexAttribs (VertexArray_move_assign dst other).2
    = _enabledVertexAttribs other.
Proof. done. Qed.

(** C3. The specification has a move transfer the handle and the enabled
    indices. On an object with handle 7 that has enabled the indices 0 and
    1, the move constructor and the move assignment transfer the handle
    and leave the indices behind: the destination of the construction
    starts with no recorded index, the destination of the assignment
    keeps the indices it had, and the source keeps [0; 1]. A later
    [setAttributes] on the destination therefore disables nothing of what
    is enabled on the native object 7. *)
Theorem move_leaves_enabled_indices_behind :
  let source :=
    object (run (setAttributes false (Some 16) [position3; colour4] 16)
              (VertexArray_new 7)) in
  let constructed := VertexArray_move source in
  let assigned := VertexArray_move_assign (VertexArray_new 9) source in
  _enabledVertexAttribs source = [0; 1] ∧
  handle (base constructed.1) = 7 ∧
  _enabledVertexAttribs constructed.1 = [] ∧
  _enabledVertexAttribs constructed.1 ≠ _enabledVertexAttribs source ∧
  _enabledVertexAttribs constructed.2 = [0; 1] ∧
  handle (base assigned.1) = 7 ∧
  _enabledVertexAttribs assigned.1 = [] ∧
  _enabledVertexAttribs assigned.1 ≠ _enabledVertexAttribs source ∧
  _enabledVertexAttribs assigned.2 = [0; 1] ∧
  log (run (setAttributes false (Some 16) [vec4] 16) constructed.1)
  = [glGetIntegerv GL_MAX_VERTEX_ATTRIBS; Buffer_bind 7;
     glEnableVertexAttribArray 0;
     glVertexAttribPointer 0 4 GL_FLOAT false 16 0].
Proof. split_and!; done. Qed.

(** * Further properties of the code *)

(** ** The limit query *)

(** X1. With a positive stride, when the driver stores nothing for the
    limit or stores a negative value, [setAttributes] throws
    [runtime_error] right after the query: the query is the only native
    call and the object is unchanged. *)
Theorem setAttributes_query_failure (debug : bool) (queried : option Z)
    (attribs : list VertexAttribute) (stride : Z) (s : state) :
  0 < stride →
  queried = None ∨ (∃ v, queried = Some v ∧ v < 0) →
  setAttributes debug queried attribs stride s =
    (inl (runtime_error "Could not query GL_MAX_VERTEX_ATTRIBS!"),
     {| this := this s;
        calls := calls s ++ [glGetIntegerv GL_MAX_VERTEX_ATTRIBS] |}).
Proof.
  intros Hs Hq. apply setAttributes_query_failed; [done|].
  destruct Hq as [->|(v & -> & Hv)]; simpl; lia.
Qed.

Lemma setAttributes_query_failure_witness :
  setAttributes true None [position3] 16 (initial (VertexArray_new 1)) =
    (inl (runtime_error "Could not query GL_MAX_VERTEX_ATTRIBS!"),
     {| this := VertexArray_new 1;
        calls := [glGetIntegerv GL_MAX_VERTEX_ATTRIBS] |}).
Proof.
  apply (setAttributes_query_failure true None [position3] 16
           (initial (VertexArray_new 1))); [lia|by left].
Defined.

(** ** The empty layout *)

(** X2. With a positive stride and a delivered limit, the empty layout is
    accepted in both builds and works as a reset: the object is bound,
    every recorded index is disabled, and the object ends with no recorded
    index and without any enable call. *)
Theorem setAttributes_empty_layout (debug : bool) (limit : Z) (stride : Z)
    (s : state) :
  0 < stride → 0 ≤ limit →
  setAttributes debug (Some limit) [] stride s =
    (inr (),
     {| this := {| base := base (this s); _enabledVertexAttribs := [] |};
        calls := calls s ++
                 [glGetIntegerv GL_MAX_VERTEX_ATTRIBS;
                  Buffer_bind (handle (base (this s)))] ++
                 (glDisableVertexAttribArray <$>
                    _enabledVertexAttribs (this s)) |}).
Proof.
  intros Hs Hl. rewrite setAttributes_checked; [|done|done|].
  - by destruct debug.
  - simpl. unfold to_size_t.
    pose proof (Z.mod_pos_bound limit (2 ^ 64)). lia.
Qed.

Lemma setAttributes_empty_layout_witness :
  setAttributes true (Some 0) [] 4
    {| this := {| base := {| bufferType := Array; handle := 3 |};
                  _enabledVertexAttribs := [5; 2] |};
       calls := [] |} =
    (inr (),
     {| this := {| base := {| bufferType := Array; handle := 3 |};
                   _enabledVertexAttribs := [] |};
        calls := [glGetIntegerv GL_MAX_VERTEX_ATTRIBS; Buffer_bind 3;
                  glDisableVertexAttribArray 5;
                  glDisableVertexAttribArray 2] |}).
Proof.
  apply (setAttributes_empty_layout true 0 4
           {| this := {| base := {| bufferType := Array; handle := 3 |};
                         _enabledVertexAttribs := [5; 2] |};
              calls := [] |}); lia.
Defined.

(** ** The two translation tables together *)

(** X3. [typeToBytes] and [toGLenum] return on exactly the same stored
    values, those of the enumeration; [toGLenum] never maps two different
    values to the same native constant; every byte width is between 1 and
    8. *)
Theorem translation_tables_agree :
  (∀ z, (∃ b, typeToBytes z = inr b) ↔ in_enumeration z) ∧
  (∀ z, (∃ c, toGLenum z = inr c) ↔ in_enumeration z) ∧
  (∀ z z' c, toGLenum z = inr c → toGLenum z' = inr c → z = z') ∧
  (∀ z b, typeToBytes z = inr b → 1 ≤ b ≤ 8).
Proof.
  split_and!.
  - intros z. rewrite in_enumeration_of_Z. split.
    + intros [b Hb]. unfold typeToBytes in Hb.
      destruct (VertexAttribType.of_Z z); [eauto|discriminate].
    + intros [x Hx]. rewrite (typeToBytes_of_Z _ _ Hx). eauto.
  - intros z. rewrite in_enumeration_of_Z. split.
    + intros [c Hc]. unfold toGLenum in Hc.
      destruct (VertexAttribType.of_Z z); [eauto|discriminate].
    + intros [x Hx]. rewrite (toGLenum_of_Z _ _ Hx). eauto.
  - intros z z' c Hz Hz'. unfold toGLenum in Hz, Hz'.
    destruct (VertexAttribType.of_Z z) as [x|] eqn:Ex; [|discriminate].
    destruct (VertexAttribType.of_Z z') as [x'|] eqn:Ex'; [|discriminate].
    apply of_Z_Some in Ex, Ex'. subst z z'.
    destruct x, x'; try reflexivity; vm_compute in Hz, Hz'; congruence.
  - intros z b Hb. unfold typeToBytes in Hb.
    destruct (VertexAttribType.of_Z z) as [x|]; [|discriminate].
    destruct x; vm_compute in Hb; injection Hb as <-; lia.
Qed.

Lemma translation_tables_agree_witness :
  (∃ b, typeToBytes 7 = inr b) ∧ ¬ (∃ c, toGLenum 10 = inr c).
Proof.
  destruct translation_tables_agree as (Hb & Hc & _ & _). split.
  - apply (Hb 7). unfold in_enumeration. lia.
  - intros H. apply (Hc 10) in H. unfold in_enumeration in H. lia.
Defined.

(** ** What a run records and what it enables *)

Lemma enabled_by_native_calls stride a :
  enabled_by (native_calls stride a) = [index a].
Proof.
  unfold native_calls, enabled_by.
  destruct (VertexAttribType.of_Z (type a)); [|done]. by case_decide.
Qed.

Lemma enabled_by_app cs cs' :
  enabled_by (cs ++ cs') = enabled_by cs ++ enabled_by cs'.
Proof. apply omap_app. Qed.

Lemma enabled_by_disables (l : list Z) :
  enabled_by (glDisableVertexAttribArray <$> l) = [].
Proof. induction l; [done|]. done. Qed.

Lemma for_each_cons_M {A : Type} (x : A) (l : list A) (body : A → M ()) s :
  for_each (x :: l) body s =
    match body x s with
    | (inl e, s') => (inl e, s')
    | (inr _, s') => for_each l body s'
    end.
Proof. reflexivity. Qed.

(** The final loop, whatever it meets: it records the indices of a prefix
    of the layout, enables exactly those, and disables nothing. *)
Lemma loop_any maxv size stride attribs s :
  let r := for_each attribs (apply_attrib maxv size stride) s in
  ∃ (k : nat) rest,
    (k ≤ length attribs)%nat ∧
    r.2 = evolve s (_enabledVertexAttribs (this s) ++ (index <$> take k attribs))
            rest ∧
    enabled_by rest = index <$> take k attribs ∧
    (∀ c, c ∈ rest → ¬ is_disable c) ∧
    (r.1 = inr () → k = length attribs).
Proof.
  revert s. induction attribs as [|a attribs IH]; intros s r; subst r.
  - exists 0%nat, []. simpl. unfold_M. rewrite app_nil_r, evolve_id.
    split_and!; try done. intros c Hc. by apply elem_of_nil in Hc.
  - rewrite for_each_cons_M.
    destruct (decide (accepted maxv a)) as [Ha|Ha].
    + destruct (describable_dec a) as [Hd|Hd].
      * rewrite apply_attrib_described by done.
        destruct (IH (evolve s (_enabledVertexAttribs (this s) ++ [index a])
                        (native_calls stride a)))
          as (k & rest & Hk & Hst & Hen & Hno & Hok).
        exists (S k), (native_calls stride a ++ rest). split_and!.
        -- simpl. lia.
        -- rewrite Hst, evolve_evolve. simpl. by rewrite <-app_assoc.
        -- rewrite enabled_by_app, enabled_by_native_calls, Hen. done.
        -- intros c [Hc|Hc]%elem_of_app; [|by apply Hno].
           apply (native_calls_never_disable stride [a]). simpl.
           by rewrite app_nil_r.
        -- intros Hr. simpl. f_equal. by apply Hok.
      * destruct (apply_attrib_enabled_only maxv size stride a s Ha Hd)
          as [msg ->].
        exists 1%nat, [glEnableVertexAttribArray (index a)]. simpl.
        rewrite ?take_0. split_and!; try done; [lia|].
        intros c ->%list_elem_of_singleton [i Hi]. discriminate.
    + destruct (apply_attrib_rejected maxv size stride a s Ha) as [msg ->].
      exists 0%nat, []. simpl. rewrite app_nil_r, evolve_id.
      split_and!; try done; [lia|]. intros c Hc. by apply elem_of_nil in Hc.
Qed.

Lemma setAttributes_any_outcome (debug : bool) (limit : Z)
    (attribs : list VertexAttribute) (stride : Z) (s : state) :
  0 < stride → 0 ≤ limit ≤ INT_MAX → Z.of_nat (length attribs) ≤ limit →
  let r := setAttributes debug (Some limit) attribs stride s in
  ∃ (k : nat) rest,
    (k ≤ length attribs)%nat ∧
    base (this r.2) = base (this s) ∧
    _enabledVertexAttribs (this r.2) = index <$> take k attribs ∧
    calls r.2 = calls s ++
                preamble_calls (handle (base (this s)))
                  (_enabledVertexAttribs (this s)) ++ rest ∧
    enabled_by rest = _enabledVertexAttribs (this r.2) ∧
    (∀ c, c ∈ rest → ¬ is_disable c) ∧
    (r.1 = inr () → k = length attribs).
Proof.
  intros Hs Hl Hc r. subst r.
  rewrite setAttributes_checked by (try apply count_within_limit; done || lia).
  destruct (if debug then integrity_pass attribs stride else inr ())
    as [e|[]].
  - exists 0%nat, []. simpl. rewrite ?take_0, ?app_nil_r.
    split_and!; try done; [lia|]. intros c Hc'. by apply elem_of_nil in Hc'.
  - destruct (loop_any limit (length attribs) stride attribs (reconfigured s))
      as (k & rest & Hk & Hst & Hen & Hno & Hok).
    exists k, rest. rewrite Hst. simpl. split_and!; try done.
    by rewrite <-app_assoc.
Qed.


(** X4. Once the stride, the query and the count have passed their checks,
    and whatever happens afterwards (return or throw, either build):
    the handle is untouched; the run issues the query, the bind and one
    disable per previously recorded index, and after these no disable any
    more; the indices recorded at the end are those of a prefix of the
    layout, and they are exactly the indices for which the run has issued
    an enable call, in the same order. A return means the whole layout. *)
Theorem setAttributes_records_what_it_enables (debug : bool) (limit : Z)
    (attribs : list VertexAttribute) (stride : Z) (s : state) :
  0 < stride → 0 ≤ limit ≤ INT_MAX → Z.of_nat (length attribs) ≤ limit →
  let r := setAttributes debug (Some limit) attribs stride s in
  ∃ (k : nat) rest,
    (k ≤ length attribs)%nat ∧
    base (this r.2) = base (this s) ∧
    _enabledVertexAttribs (this r.2) = index <$> take k attribs ∧
    calls r.2 = calls s ++
                preamble_calls (handle (base (this s)))
                  (_enabledVertexAttribs (this s)) ++ rest ∧
    enabled_by rest = _enabledVertexAttribs (this r.2) ∧
    (∀ c, c ∈ rest → ¬ is_disable c) ∧
    (r.1 = inr () → k = length attribs).
Proof. apply setAttributes_any_outcome. Qed.

Lemma setAttributes_records_what_it_enables_witness :
  let r := setAttributes false (Some 16) [position3; float_as_integer] 16
             (initial (VertexArray_new 1)) in
  ∃ (k : nat) rest,
    (k ≤ 2)%nat ∧
    _enabledVertexAttribs (this r.2)
    = index <$> take k [position3; float_as_integer] ∧
    enabled_by rest = _enabledVertexAttribs (this r.2).
Proof.
  destruct (setAttributes_records_what_it_enables false 16
              [position3; float_as_integer] 16 (initial (VertexArray_new 1)))
    as (k & rest & Hk & _ & Hen & _ & Hby & _).
  - lia.
  - unfold INT_MAX. lia.
  - simpl. lia.
  - exists k, rest. split_and!; [exact Hk|exact Hen|exact Hby].
Defined.

(** ** Exactly when a call returns *)

Lemma accepted_describable_valid limit a :
  0 ≤ limit ≤ INT_MAX → 0 ≤ index a →
  accepted limit a → describable a → valid_descriptor limit a.
Proof.
  intros Hl Hi Ha [Hc He].
  apply accepted_enabling_checks in Ha as (? & ? & ?); [|done].
  unfold valid_descriptor. split_and!; done || lia.
Qed.

Lemma to_int_above (x : Z) :
  INT_MAX < x ≤ INT_MAX + 2 ^ 31 → to_int x = x - 2 ^ 32.
Proof.
  unfold INT_MAX, to_int. intros H.
  replace (x + 2 ^ 31) with ((x + 2 ^ 31 - 2 ^ 32) + 1 * 2 ^ 32) by lia.
  rewrite Z_mod_plus_full, Z.mod_small; lia.
Qed.

(** A descriptor that passes the checks of the final loop and its own
    iteration of the debug block fits into the stride. *)
Lemma integrity_step_fits attribs stride i a :
  0 < stride ≤ INT_MAX → attribs !! i = Some a →
  0 ≤ offset a ≤ INT_MAX → 1 ≤ numComponents a ≤ 4 →
  in_enumeration (type a) →
  integrity_step attribs stride i = inr () → range_end a ≤ stride.
Proof.
  intros Hs Hi Ho Hn [x Hx]%in_enumeration_of_Z. unfold integrity_step.
  rewrite Hi, (typeToBytes_of_Z _ _ Hx). unfold mbind, result_bind. simpl.
  rewrite (range_end_enum _ _ Hx). unfold attrib_end.
  pose proof (scalarSize_doc_bounds x) as Hb.
  rewrite (to_int_small (_ * _)) by (unfold is_int, INT_MIN, INT_MAX; nia).
  rewrite (to_size_t_small stride) by (unfold INT_MAX in *; lia).
  set (e := offset a + scalarSize_doc x * numComponents a).
  assert (1 ≤ e ≤ INT_MAX + 32) as He by (subst e; nia).
  destruct (decide (e ≤ INT_MAX)) as [Hle|Hgt].
  - rewrite to_int_small by (unfold is_int, INT_MIN, INT_MAX in *; lia).
    rewrite to_size_t_small by (unfold INT_MAX in *; lia).
    case_decide; [done|]. lia.
  - rewrite to_int_above by (unfold INT_MAX in *; lia).
    unfold to_size_t.
    rewrite <-(Z_mod_plus_full _ 1), Z.mod_small
      by (unfold INT_MAX in *; lia).
    rewrite decide_True by (unfold INT_MAX in *; lia). done.
Qed.

(** X5. For arguments that hold values of their C++ types, a call of
    [setAttributes] returns exactly when the stride is positive, the
    query delivers a limit that is not negative and not below the number
    of descriptors, every descriptor is valid for that limit (offset at
    least 0, index below the limit, one to four components, a type of the
    enumeration, a compatible pair) and, in a debug build, the layout
    invariant holds. In a release build nothing else is examined:
    duplicate indices, overlapping ranges and ranges beyond the stride are
    accepted. *)
Theorem setAttributes_returns_iff (debug : bool) (queried : option Z)
    (attribs : list VertexAttribute) (stride : Z) (s : state) :
  stride ≤ INT_MAX → (∀ v, queried = Some v → v ≤ INT_MAX) →
  Forall representable attribs →
  (setAttributes debug queried attribs stride s).1 = inr () ↔
  0 < stride ∧
  ∃ limit, queried = Some limit ∧ 0 ≤ limit ∧
           Z.of_nat (length attribs) ≤ limit ∧
           Forall (valid_descriptor limit) attribs ∧
           (debug = true → layout_invariant attribs stride).
Proof.
  intros Hs Hq Hrep. split.
  - intros H.
    destruct (decide (stride ≤ 0)) as [Hs0|Hs0].
    { by rewrite setAttributes_stride_rejected in H. }
    destruct (decide (default (-1) queried < 0)) as [Hq0|Hq0].
    { by rewrite setAttributes_query_failed in H by lia. }
    destruct queried as [limit|]; [|done]. simpl in Hq0.
    specialize (Hq limit eq_refl).
    destruct (decide (to_size_t limit < Z.of_nat (length attribs)))
      as [Hc|Hc].
    { by rewrite setAttributes_count_rejected in H by lia. }
    rewrite to_size_t_small in Hc by (unfold INT_MAX in *; lia).
    rewrite setAttributes_checked in H
      by (try apply count_within_limit; lia).
    destruct (if debug then integrity_pass attribs stride else inr ())
      as [e|[]] eqn:Hd; [done|].
    destruct (for_each attribs (apply_attrib limit (length attribs) stride)
                (reconfigured s)) as [r s'] eqn:Hloop.
    simpl in H. subst r. apply loop_returns_inv in Hloop.
    assert (Forall (valid_descriptor limit) attribs) as Hv.
    { apply Forall_forall. intros a Ha.
      pose proof (proj1 (Forall_forall _ _) Hloop a Ha) as [Hacc Hdes].
      pose proof (proj1 (Forall_forall _ _) Hrep a Ha) as ([Hi _] & _).
      apply accepted_describable_valid; done || lia. }
    split; [lia|]. exists limit. split_and!; try done; try lia.
    intros ->. rewrite integrity_pass_returns in Hd.
    assert (Forall well_formed attribs) as Hw.
    { apply Forall_lookup. intros i a Hi.
      pose proof (Forall_lookup_1 _ _ _ _ Hv Hi) as (Ho & _ & Hn & He & _).
      pose proof (Forall_lookup_1 _ _ _ _ Hrep Hi) as (_ & _ & [_ Hoi]).
      pose proof (integrity_step_fits attribs stride i a ltac:(lia) Hi
                    ltac:(lia) Hn He (Hd i (lookup_lt_Some _ _ _ Hi))).
      unfold well_formed. split_and!; done || lia. }
    apply integrity_pass_invariant; [lia|done|].
    by apply integrity_pass_returns.
  - intros (Hs0 & limit & -> & Hl & Hc & Hv & Hd).
    specialize (Hq limit eq_refl).
    rewrite setAttributes_described; [done|lia|lia| | |].
    + apply count_within_limit; lia.
    + intros ->. specialize (Hd eq_refl).
      apply integrity_pass_invariant; [lia| |done].
      apply Forall_forall. intros a Ha.
      apply (valid_descriptor_well_formed limit stride); [lia| |by apply Hd].
      by eapply Forall_forall in Hv.
    + eapply Forall_impl; [done|]. intros a Ha.
      apply valid_descriptor_accepted; [lia|done].
Qed.

Lemma setAttributes_returns_iff_witness :
  (setAttributes false (Some 16) [position3; inner1] 16
     (initial (VertexArray_new 1))).1 = inr ().
Proof.
  apply (setAttributes_returns_iff false (Some 16) [position3; inner1] 16
           (initial (VertexArray_new 1))).
  - unfold INT_MAX. lia.
  - intros v [= <-]. unfold INT_MAX. lia.
  - repeat constructor; unfold is_int, INT_MIN, INT_MAX; simpl; lia.
  - split; [lia|]. exists 16. split_and!; [reflexivity|lia|simpl; lia| |].
    + repeat constructor; unfold in_enumeration; simpl; try lia;
        intros (Hi & _); discriminate.
    + intros [=].
Defined.

(** ** Which error a descriptor gets *)

Lemma apply_attrib_offset maxv size stride a s :
  offset a < 0 →
  apply_attrib maxv size stride a s =
    (inl (invalid_argument "Offset may not be less than 0!"), s).
Proof. intros H. unfold apply_attrib. by rewrite decide_True. Qed.

Lemma apply_attrib_index maxv size stride a s :
  0 ≤ offset a → to_unsigned maxv ≤ index a →
  apply_attrib maxv size stride a s =
    (inl (invalid_argument ("The current GPU does not support indexes over "
                            +:+ pretty size +:+ "!")), s).
Proof.
  intros Ho Hi. unfold apply_attrib.
  rewrite decide_False by lia. by rewrite decide_True.
Qed.

Lemma apply_attrib_components maxv size stride a s :
  0 ≤ offset a → index a < to_unsigned maxv →
  numComponents a ≤ 0 ∨ 4 < numComponents a →
  apply_attrib maxv size stride a s =
    (inl (invalid_argument
            "numComponents of VertexAttribute may only be 1 to 4!"), s).
Proof.
  intros Ho Hi Hn. unfold apply_attrib.
  rewrite !decide_False by lia. rewrite decide_True by lia. done.
Qed.

Lemma apply_attrib_not_enum maxv size stride a s :
  accepted maxv a → ¬ in_enumeration (type a) →
  apply_attrib maxv size stride a s =
    (inl (invalid_argument "Given VertexAttribType is invalid!"),
     evolve s (_enabledVertexAttribs (this s) ++ [index a])
       [glEnableVertexAttribArray (index a)]).
Proof.
  intros (H1 & H2 & H3) He. unfold apply_attrib.
  rewrite !decide_False by done. unfold_M.
  assert (VertexAttribType.of_Z (type a) = None) as Hx.
  { destruct (VertexAttribType.of_Z (type a)) eqn:E; [|done].
    destruct He. apply in_enumeration_of_Z. eauto. }
  unfold validateTypeInterpretation. rewrite Hx.
  case_decide; by rewrite describe_not_enum.
Qed.

(** The call up to the descriptor at position [k], when everything before
    it has passed. *)
Lemma setAttributes_reaches debug limit attribs stride s k a :
  0 < stride → 0 ≤ limit ≤ INT_MAX → Z.of_nat (length attribs) ≤ limit →
  (debug = true → integrity_pass attribs stride = inr ()) →
  attribs !! k = Some a →
  Forall (valid_descriptor limit) (take k attribs) →
  setAttributes debug (Some limit) attribs stride s =
    match apply_attrib limit (length attribs) stride a
            (evolve (reconfigured s) (index <$> take k attribs)
               (take k attribs ≫= native_calls stride)) with
    | (inl e, s') => (inl e, s')
    | (inr _, s') =>
        for_each (drop (S k) attribs)
          (apply_attrib limit (length attribs) stride) s'
    end.
Proof.
  intros Hs Hl Hc Hd Hk Hpre.
  rewrite setAttributes_checked
    by (try apply count_within_limit; done || lia).
  assert ((if debug then integrity_pass attribs stride else inr ()) = inr ())
    as -> by (destruct debug; auto).
  rewrite (loop_stops_at _ _ _ _ k a); [done|done|].
  eapply Forall_impl; [done|]. intros b Hb.
  by apply valid_descriptor_accepted.
Qed.

(** X6. When the final loop reaches a descriptor (everything before it has
    passed), the checks that precede the enabling run in the order offset,
    index, component count, and the first that fails decides the message:
    a negative offset gives the offset message whatever the other fields
    are; an index at or above the limit gives a message that prints the
    number of descriptors of the layout (not the limit); a component count
    outside 1..4 gives the component message. *)
Theorem rejection_reasons (debug : bool) (limit : Z)
    (attribs : list VertexAttribute) (stride : Z) (s : state)
    (k : nat) (a : VertexAttribute) :
  0 < stride → 0 ≤ limit ≤ INT_MAX → Z.of_nat (length attribs) ≤ limit →
  (debug = true → integrity_pass attribs stride = inr ()) →
  attribs !! k = Some a →
  Forall (valid_descriptor limit) (take k attribs) →
  let r := setAttributes debug (Some limit) attribs stride s in
  (offset a < 0 →
   r.1 = inl (invalid_argument "Offset may not be less than 0!")) ∧
  (0 ≤ offset a → limit ≤ index a →
   r.1 = inl (invalid_argument
                ("The current GPU does not support indexes over " +:+
                 pretty (length attribs) +:+ "!"))) ∧
  (0 ≤ offset a → index a < limit →
   numComponents a ≤ 0 ∨ 4 < numComponents a →
   r.1 = inl (invalid_argument
                "numComponents of VertexAttribute may only be 1 to 4!")).
Proof.
  intros Hs Hl Hc Hd Hk Hpre r. subst r.
  rewrite (setAttributes_reaches _ _ _ _ _ k a) by done.
  assert (to_unsigned limit = limit) as Hu
    by (apply to_unsigned_small; unfold INT_MAX in *; lia).
  split_and!.
  - intros Ho. by rewrite apply_attrib_offset.
  - intros Ho Hi. by rewrite apply_attrib_index by lia.
  - intros Ho Hi Hn. by rewrite apply_attrib_components by lia.
Qed.

Lemma rejection_reasons_witness :
  (setAttributes false (Some 16)
     [position3; attribute 16 0 VertexAttribType.Float
                   VertexAttribInterp.Float false 12] 16
     (initial (VertexArray_new 1))).1
  = inl (invalid_argument
           "The current GPU does not support indexes over 2!").
Proof.
  refine (proj1 (proj2 (rejection_reasons false 16
            [position3; attribute 16 0 VertexAttribType.Float
                          VertexAttribInterp.Float false 12] 16
            (initial (VertexArray_new 1)) 1
            (attribute 16 0 VertexAttribType.Float
               VertexAttribInterp.Float false 12) _ _ _ _ _ _)) _ _).
  - lia.
  - unfold INT_MAX. lia.
  - simpl. lia.
  - intros [=].
  - reflexivity.
  - repeat constructor; unfold in_enumeration; simpl; try lia.
    intros (Hi & _). discriminate.
  - simpl. lia.
  - simpl. lia.
Defined.

(** ** A type outside the enumeration *)

Lemma integrity_pass_fails_at attribs stride k e0 :
  (k < length attribs)%nat →
  integrity_step attribs stride k = inl e0 →
  ∃ e, integrity_pass attribs stride = inl e ∧
       ((∀ i, (i < k)%nat → integrity_step attribs stride i = inr ()) →
        e = e0).
Proof.
  intros Hk Hstep.
  destruct (integrity_pass attribs stride) as [e|[]] eqn:Hp.
  - exists e. split; [done|]. intros Hbefore.
    apply integrity_pass_throws in Hp as (i & Hi & Hpre & Hthrow).
    destruct (Nat.lt_total k i) as [Hlt|[->|Hlt]].
    + rewrite (Hpre k Hlt) in Hstep. discriminate.
    + congruence.
    + rewrite (Hbefore i Hlt) in Hthrow. discriminate.
  - rewrite integrity_pass_returns in Hp.
    rewrite (Hp k Hk) in Hstep. discriminate.
Qed.

Lemma integrity_step_not_enum attribs stride k a :
  attribs !! k = Some a → ¬ in_enumeration (type a) →
  integrity_step attribs stride k =
    inl (invalid_argument "Given VertexAttribType is invalid!").
Proof.
  intros Hk He. unfold integrity_step, typeToBytes. rewrite Hk.
  destruct (VertexAttribType.of_Z (type a)) eqn:E; [|done].
  destruct He. apply in_enumeration_of_Z. eauto.
Qed.

(** X7. A descriptor whose stored type is outside the enumeration is
    rejected at different moments in the two builds. In a debug build the
    debug block throws before anything is enabled (with the invalid-type
    message when no earlier iteration of the block has thrown). In a
    release build, when the final loop reaches the descriptor and its
    offset, index and component count pass, the compatibility check lets
    the value through whatever the interpretation is, the index is enabled
    and recorded, and only then [toGLenum] throws the invalid-type
    message. *)
Theorem invalid_type_by_build (limit : Z) (attribs : list VertexAttribute)
    (stride : Z) (s : state) (k : nat) (a : VertexAttribute) :
  0 < stride → 0 ≤ limit ≤ INT_MAX → Z.of_nat (length attribs) ≤ limit →
  attribs !! k = Some a → ¬ in_enumeration (type a) →
  (∃ e, setAttributes true (Some limit) attribs stride s
        = (inl e, reconfigured s) ∧
        _enabledVertexAttribs (this (reconfigured s)) = [] ∧
        ((∀ i, (i < k)%nat → integrity_step attribs stride i = inr ()) →
         e = invalid_argument "Given VertexAttribType is invalid!")) ∧
  (Forall (valid_descriptor limit) (take k attribs) →
   enabling_checks limit a →
   let r := setAttributes false (Some limit) attribs stride s in
   r.1 = inl (invalid_argument "Given VertexAttribType is invalid!") ∧
   _enabledVertexAttribs (this r.2) = index <$> take (S k) attribs).
Proof.
  intros Hs Hl Hc Hk He. split.
  - destruct (integrity_pass_fails_at attribs stride k _
                (lookup_lt_Some _ _ _ Hk)
                (integrity_step_not_enum _ stride _ _ Hk He))
      as (e & Hp & Hfirst).
    exists e. split_and!; [|done|done].
    apply setAttributes_debug_throws; done || lia.
  - intros Hpre Hchecks r. subst r.
    rewrite (setAttributes_reaches _ _ _ _ _ k a) by done.
    rewrite apply_attrib_not_enum
      by (done || by apply accepted_enabling_checks).
    simpl. split; [done|].
    rewrite (take_S_r _ _ a) by done. by rewrite fmap_app.
Qed.

Lemma invalid_type_by_build_witness :
  let bad := {| index := 1; numComponents := 1; type := 10; interp := 1;
                normalized := false; offset := 12 |} in
  let r := setAttributes false (Some 16) [position3; bad] 16
             (initial (VertexArray_new 1)) in
  r.1 = inl (invalid_argument "Given VertexAttribType is invalid!") ∧
  _enabledVertexAttribs (this r.2) = [0; 1].
Proof.
  intros bad.
  refine (proj2 (invalid_type_by_build 16 [position3; bad] 16
                   (initial (VertexArray_new 1)) 1 bad _ _ _ _ _) _ _).
  - lia.
  - unfold INT_MAX. lia.
  - simpl. lia.
  - reflexivity.
  - unfold in_enumeration. simpl. lia.
  - repeat constructor; unfold in_enumeration; simpl; try lia.
    intros (Hi & _). discriminate.
  - unfold enabling_checks. simpl. lia.
Defined.

(** ** Which violation the debug block reports *)

Lemma for_each_seq_throws (n : nat) (body : nat → result ()) e :
  for_each (seq 0 n) body = inl e ↔
  ∃ i, (i < n)%nat ∧ (∀ k, (k < i)%nat → body k = inr ()) ∧ body i = inl e.
Proof.
  rewrite for_each_throws. split.
  - intros (l1 & i & l2 & Hl & Hpre & Hi).
    assert (Hlen : seq 0 n !! length l1 = Some i).
    { rewrite Hl. by rewrite list_lookup_middle. }
    apply lookup_seq in Hlen as [-> Hlt]. simpl in *.
    exists (length l1). split_and!; [done| |done].
    intros k Hk. apply Hpre.
    assert (Hk' : seq 0 n !! k = Some k) by (apply lookup_seq; lia).
    rewrite Hl, lookup_app_l in Hk' by done.
    by eapply list_elem_of_lookup_2.
  - intros (i & Hi & Hpre & He).
    exists (seq 0 i), i, (seq (S i) (n - S i)).
    split_and!; [|by intros y [_ Hy]%elem_of_seq; apply Hpre|done].
    replace n with (i + S (n - S i))%nat at 1 by lia.
    by rewrite seq_app.
Qed.

Lemma overlap_scan_throws_first attribs i ai end_ e :
  overlap_scan attribs i ai end_ = inl e →
  ∃ j aj, i ≠ j ∧ attribs !! j = Some aj ∧ covers ai end_ aj ∧
          (∀ j' aj', (j' < j)%nat → i ≠ j' → attribs !! j' = Some aj' →
                     ¬ covers ai end_ aj') ∧
          e = invalid_argument (overlap_msg i j).
Proof.
  unfold overlap_scan. rewrite for_each_seq_throws.
  intros (j & Hj & Hpre & Hthrow).
  case_decide as Hij; [done|].
  destruct (attribs !! j) as [aj|] eqn:Ej; [|done].
  case_decide as Hc; [|done]. injection Hthrow as <-.
  exists j, aj. split_and!; try done.
  intros j' aj' Hlt Hij' Ej' Hc'. specialize (Hpre j' Hlt).
  rewrite decide_False, Ej', decide_True in Hpre by done. discriminate.
Qed.

(** X8. On a layout of well-formed descriptors the error of the debug
    block is that of the first position (in layout order) whose
    descriptor exceeds the stride or contains the first byte of another
    descriptor: the stride error if it exceeds the stride, and otherwise
    the overlap error naming this position first and, second, the first
    position whose descriptor starts inside it. The descriptor named first
    therefore never starts after the one named second. *)
Theorem integrity_first_violation (attribs : list VertexAttribute)
    (stride : Z) (e : exception) :
  0 < stride ≤ INT_MAX → Forall well_formed attribs →
  integrity_pass attribs stride = inl e →
  ∃ i a,
    attribs !! i = Some a ∧
    (∀ k, (k < i)%nat → ¬ offending attribs stride k) ∧
    ((exceeds_stride stride a ∧ e = invalid_argument stride_exceeded_msg) ∨
     (¬ exceeds_stride stride a ∧
      ∃ j b, i ≠ j ∧ attribs !! j = Some b ∧ covers_start a b ∧
             (∀ j' b', (j' < j)%nat → i ≠ j' → attribs !! j' = Some b' →
                       ¬ covers_start a b') ∧
             e = invalid_argument (overlap_msg i j))).
Proof.
  intros Hs Hw (i & Hi & Hpre & Hthrow)%integrity_pass_throws.
  destruct (lookup_lt_is_Some_2 attribs i Hi) as [a Ha].
  exists i, a. split_and!; [done| |].
  - intros k Hk (b & Hb & Hoff). specialize (Hpre k Hk).
    rewrite (integrity_step_well_formed _ _ _ b) in Hpre
      by eauto using lookup_well_formed.
    unfold exceeds_stride in Hoff. case_decide; [done|].
    destruct Hoff as [Hex|(j & c & Hkj & Hj & Hcs)]; [lia|].
    rewrite overlap_scan_returns in Hpre. apply (Hpre j c); [done..|].
    apply covers_well_formed; eauto using lookup_well_formed.
  - rewrite (integrity_step_well_formed _ _ _ a) in Hthrow
      by eauto using lookup_well_formed.
    unfold exceeds_stride. case_decide as Hex.
    + left. injection Hthrow as <-. split; [lia|done].
    + right. split; [lia|].
      apply overlap_scan_throws_first in Hthrow
        as (j & b & Hij & Hj & Hc & Hfirst & ->).
      exists j, b. split_and!; try done.
      * apply covers_well_formed in Hc; eauto using lookup_well_formed.
      * intros j' b' Hlt Hij' Hj' Hcs. apply (Hfirst j' b'); try done.
        apply covers_well_formed; eauto using lookup_well_formed.
Qed.

Lemma integrity_first_violation_witness :
  ∃ i a,
    [position3; colour4; inner1; scalar_at_0] !! i = Some a ∧
    (∀ k, (k < i)%nat →
          ¬ offending [position3; colour4; inner1; scalar_at_0] 16 k) ∧
    ((exceeds_stride 16 a ∧
      invalid_argument "VertexAttributes 0 and 2 overlap!"
      = invalid_argument stride_exceeded_msg) ∨
     (¬ exceeds_stride 16 a ∧
      ∃ j b, i ≠ j ∧
             [position3; colour4; inner1; scalar_at_0] !! j = Some b ∧
             covers_start a b ∧
             (∀ j' b', (j' < j)%nat → i ≠ j' →
                       [position3; colour4; inner1; scalar_at_0] !! j'
                       = Some b' → ¬ covers_start a b') ∧
             invalid_argument "VertexAttributes 0 and 2 overlap!"
             = invalid_argument (overlap_msg i j))).
Proof.
  apply (integrity_first_violation
           [position3; colour4; inner1; scalar_at_0] 16
           (invalid_argument "VertexAttributes 0 and 2 overlap!")).
  - unfold INT_MAX. lia.
  - repeat constructor; unfold in_enumeration, range_end, attrib_size, INT_MAX;
      simpl; lia.
  - reflexivity.
Defined.

(** ** Cleaning up after any run *)

(** X9. Two successive calls on the same object that both get past the
    stride, query and count checks, whether the first call then returns or
    throws half-way: the second call disables exactly the indices the
    first call has enabled, in the same order, before it enables anything
    itself. A partial failure leaves no enabled index that the next
    reconfiguration would miss. *)
Theorem enabled_then_disabled (debug : bool) (limit1 limit2 : Z)
    (layout1 layout2 : list VertexAttribute) (stride1 stride2 : Z)
    (s0 : state) :
  0 < stride1 → 0 ≤ limit1 ≤ INT_MAX → Z.of_nat (length layout1) ≤ limit1 →
  0 < stride2 → 0 ≤ limit2 ≤ INT_MAX → Z.of_nat (length layout2) ≤ limit2 →
  let r1 := setAttributes debug (Some limit1) layout1 stride1 s0 in
  let r2 := setAttributes debug (Some limit2) layout2 stride2 r1.2 in
  ∃ rest1 rest2,
    calls r1.2 = calls s0 ++
                 preamble_calls (handle (base (this s0)))
                   (_enabledVertexAttribs (this s0)) ++ rest1 ∧
    calls r2.2 = calls r1.2 ++
                 [glGetIntegerv GL_MAX_VERTEX_ATTRIBS;
                  Buffer_bind (handle (base (this s0)))] ++
                 (glDisableVertexAttribArray <$> enabled_by rest1) ++
                 rest2 ∧
    (∀ c, c ∈ rest1 → ¬ is_disable c) ∧
    (∀ c, c ∈ rest2 → ¬ is_disable c) ∧
    enabled_by rest2 = _enabledVertexAttribs (this r2.2).
Proof.
  intros Hs1 Hl1 Hc1 Hs2 Hl2 Hc2 r1 r2.
  destruct (setAttributes_any_outcome debug limit1 layout1 stride1 s0
              Hs1 Hl1 Hc1)
    as (k1 & rest1 & _ & Hb1 & _ & Hcalls1 & Hen1 & Hno1 & _).
  destruct (setAttributes_any_outcome debug limit2 layout2 stride2 r1.2
              Hs2 Hl2 Hc2)
    as (k2 & rest2 & _ & _ & _ & Hcalls2 & Hen2 & Hno2 & _).
  exists rest1, rest2. fold r1 in Hb1, Hcalls1, Hen1.
  fold r2 in Hcalls2, Hen2. split_and!; try done.
  rewrite Hcalls2, Hb1, Hen1. unfold preamble_calls.
  by rewrite <-!app_assoc.
Qed.

Lemma enabled_then_disabled_witness :
  let r1 := setAttributes false (Some 16) [position3; float_as_integer] 16
              (initial (VertexArray_new 1)) in
  let r2 := setAttributes false (Some 16) [vec4] 16 r1.2 in
  ∃ rest1 rest2,
    calls r1.2 = calls (initial (VertexArray_new 1)) ++
                 preamble_calls 1 [] ++ rest1 ∧
    calls r2.2 = calls r1.2 ++
                 [glGetIntegerv GL_MAX_VERTEX_ATTRIBS; Buffer_bind 1] ++
                 (glDisableVertexAttribArray <$> enabled_by rest1) ++
                 rest2 ∧
    (∀ c, c ∈ rest1 → ¬ is_disable c) ∧
    (∀ c, c ∈ rest2 → ¬ is_disable c) ∧
    enabled_by rest2 = _enabledVertexAttribs (this r2.2).
Proof.
  apply (enabled_then_disabled false 16 16 [position3; float_as_integer]
           [vec4] 16 16 (initial (VertexArray_new 1)));
    unfold INT_MAX; simpl; lia.
Defined.

(** ** Moved objects *)



(** ** Distinct indices *)

Lemma distinct_indices_count (limit : Z) (attribs : list VertexAttribute) :
  0 ≤ limit → Forall (λ a, 0 ≤ index a < limit) attribs →
  NoDup (index <$> attribs) → Z.of_nat (length attribs) ≤ limit.
Proof.
  intros Hl Hi Hnd.
  assert (index <$> attribs ⊆+ seqZ 0 limit) as Hsub.
  { apply NoDup_submseteq; [done|]. intros i (a & -> & Ha)%list_elem_of_fmap.
    apply elem_of_seqZ. by eapply Forall_forall in Hi. }
  apply submseteq_length in Hsub.
  rewrite length_fmap, length_seqZ in Hsub. lia.
Qed.

(** X12. For a layout whose indices are pairwise distinct, the count check
    can never be the one that fails once every index is below the limit:
    with a positive stride, a delivered limit, valid descriptors with
    distinct indices and, in a debug build, the layout invariant,
    [setAttributes] returns and records the indices of the layout. The
    count failure is reserved to layouts that repeat an index or carry an
    index the limit excludes. *)
Theorem setAttributes_distinct_indices (debug : bool) (limit : Z)
    (attribs : list VertexAttribute) (stride : Z) (s : state) :
  0 < stride ≤ INT_MAX → 0 ≤ limit ≤ INT_MAX →
  Forall (valid_descriptor limit) attribs →
  NoDup (index <$> attribs) →
  (debug = true → layout_invariant attribs stride) →
  let r := setAttributes debug (Some limit) attribs stride s in
  r.1 = inr () ∧ _enabledVertexAttribs (this r.2) = index <$> attribs.
Proof.
  intros Hs Hl Hv Hnd Hd r. subst r.
  assert (Z.of_nat (length attribs) ≤ limit) as Hc.
  { apply distinct_indices_count; [lia| |done].
    eapply Forall_impl; [done|]. by intros a (_ & Hi & _). }
  rewrite setAttributes_described; [done|lia|lia| | |].
  - by apply count_within_limit.
  - intros ->. specialize (Hd eq_refl).
    apply integrity_pass_invariant; [lia| |done].
    apply Forall_forall. intros a Ha.
    apply (valid_descriptor_well_formed limit stride); [lia| |by apply Hd].
    by eapply Forall_forall in Hv.
  - eapply Forall_impl; [done|]. intros a Ha.
    by apply valid_descriptor_accepted.
Qed.

Lemma setAttributes_distinct_indices_witness :
  let r := setAttributes true (Some 2) [position3; colour4] 16
             (initial (VertexArray_new 1)) in
  r.1 = inr () ∧ _enabledVertexAttribs (this r.2) = [0; 1].
Proof.
  apply (setAttributes_distinct_indices true 2 [position3; colour4] 16
           (initial (VertexArray_new 1))).
  - unfold INT_MAX. lia.
  - unfold INT_MAX. lia.
  - repeat constructor; unfold in_enumeration; simpl; try lia;
      intros (Hi & x & Hx & Hf); simpl in *; discriminate.
  - repeat constructor; rewrite ?elem_of_cons, ?elem_of_nil; simpl;
      intros H; decompose [or] H; discriminate || done.
  - intros _. exact sample_layout_invariant.
Defined.
